(** * check_api.js: the health-check engine of LunaTV-config

    A shallow embedding of [check_api.js] and the properties its
    specification states about it.

    - [Js]        the few JavaScript primitives the script relies on
                  (array writes past the end, [slice(-n)], [includes],
                  [Math.round], [toFixed(1)], sums and quotients of
                  integers in double precision, JSON values and
                  [JSON.stringify]);
    - [Aggregate] the history window and the per-endpoint statistics
                  (lines 206-261 and 358-367 of the script);
    - [Retry]     [safeGet] and [testSearch] over a scripted network and
                  clock (lines 88-141);
    - [Queue]     [queueRun] as a transition system over the callbacks of
                  the event loop (lines 144-167);
    - [Main]      the task of an endpoint (lines 185-196);
    - [Cli]       the command line (lines 16 and 34-36);
    - [Report]    the object [stats] and the rows of the report
                  (lines 210-212 and 270-273);
    - [Samples], [Cases]  the inputs of the examples.

    The properties follow the definitions, component by component. *)

From Stdlib Require Import ZArith List String Ascii Lia Bool.
From Stdlib Require Import Floats.PrimFloat Floats.FloatOps Floats.SpecFloat.
From Stdlib Require Import Uint63.
From Stdlib Require Import Sorting.Sorted Sorting.Permutation.
From stdpp Require Import gmap strings list.
Import ListNotations.

#[local] Set Warnings "-register-all".
Local Open Scope nat_scope.

(** ** Constants of the script (lines 13-20) *)

Definition MAX_DAYS : nat := 30.
Definition WARN_STREAK : nat := 3.
Definition ENABLE_SEARCH_TEST : bool := true.
Definition TIMEOUT_MS : Z := 8000.
Definition CONCURRENT_LIMIT : nat := 12.
Definition MAX_RETRY : nat := 2.
Definition RETRY_DELAY_MS : Z := 500.

(** ** JavaScript primitives *)

Module Js.

(** [a.slice(-n)]: the last [n] elements, the whole array when it is
    shorter. *)
Definition slice_last {A} (n : nat) (a : list A) : list A :=
  skipn (length a - n) a.

(** [a[i] = x] on a JavaScript array: inside the array the slot is
    replaced, past its end the array grows and the slots in between are
    holes.  An array is a list of optional values, [None] being a hole. *)
Definition array_set {A} (a : list (option A)) (i : nat) (x : A)
  : list (option A) :=
  if i <? length a then <[i := Some x]> a
  else a ++ repeat None (i - length a) ++ [Some x].

(** [Math.round (num / den)] for [den > 0]: nearest integer, a half
    rounds towards plus infinity. *)
Definition round_div (num den : Z) : Z := ((2 * num + den) / (2 * den))%Z.

(** *** Numbers as doubles

    The script computes the success rate in double precision.  The
    statistics below use exact integer arithmetic; the definitions here
    compute the same quantities on binary64 numbers, so that the two can
    be compared on the inputs the script meets. *)
Definition double_of_nat (n : nat) : float :=
  PrimFloat.of_uint63 (Uint63.of_Z (Z.of_nat n)).

Definition double_of_Z (z : Z) : float :=
  PrimFloat.of_uint63 (Uint63.of_Z z).

(** [x.toFixed(1)] for a finite [x >= 0], as the number of tenths it
    prints: the integer [n] for which [n / 10 - x] is closest to zero, the
    larger one when two are as close.  [None] stands for the other
    doubles. *)
Definition toFixed1 (x : float) : option Z :=
  match Prim2SF x with
  | S754_zero _ => Some 0%Z
  | S754_finite false m e =>
      Some (if (0 <=? e)%Z
            then (10 * Z.pos m * 2 ^ e)%Z
            else ((20 * Z.pos m + 2 ^ (- e)) / (2 * 2 ^ (- e)))%Z)
  | _ => None
  end.

(** [parseFloat] of a text with one decimal, given in tenths: the double
    nearest to [tenths / 10]. *)
Definition parseFloat_tenths (tenths : Z) : float :=
  PrimFloat.div (double_of_Z tenths) (double_of_Z 10).

(** [Math.round x] for a finite double [x]; [None] stands for the other
    doubles. *)
Definition Math_round (x : float) : option Z :=
  match Prim2SF x with
  | S754_zero _ => Some 0%Z
  | S754_finite sign m e =>
      let v := if sign then Z.neg m else Z.pos m in
      Some (if (0 <=? e)%Z then (v * 2 ^ e)%Z
            else ((2 * v + 2 ^ (- e)) / (2 * 2 ^ (- e)))%Z)
  | _ => None
  end.

(** *** Integers in double precision

    The latencies are integers, and the script adds and divides them as
    doubles (line 246).  A double that is an integer is carried by that
    integer.  The sum of two of them is the double nearest to the exact
    sum, a tie going to the double whose last bit is 0, and an infinity
    beyond the largest double; their quotient is rounded the same way
    before [Math.round] sees it. *)
Inductive number :=
| Finite (z : Z)
| PlusInfinity
| MinusInfinity
| NotANumber.

Section Doubles.
Local Open Scope Z_scope.

(** The integer nearest to [num / den] for [den > 0], a tie going to the
    even one. *)
Definition round_even (num den : Z) : Z :=
  let q := num / den in
  let r := num mod den in
  if 2 * r <? den then q
  else if den <? 2 * r then q + 1
  else if Z.even q then q else q + 1.

(** The double nearest to the integer [z]: [z] itself below [2 ^ 53] in
    magnitude, otherwise [z] rounded to 53 significant bits. *)
Definition double_of_int (z : Z) : number :=
  let a := Z.abs z in
  if a <? 2 ^ 53 then Finite z
  else
    let e := Z.log2 a - 52 in
    let r := round_even a (2 ^ e) * 2 ^ e in
    if 2 ^ 1024 <=? r
    then (if 0 <? z then PlusInfinity else MinusInfinity)
    else Finite (Z.sgn z * r).

(** [x + y]. *)
Definition number_add (x y : number) : number :=
  match x, y with
  | Finite a, Finite b => double_of_int (a + b)
  | NotANumber, _ | _, NotANumber => NotANumber
  | PlusInfinity, MinusInfinity | MinusInfinity, PlusInfinity => NotANumber
  | PlusInfinity, _ | _, PlusInfinity => PlusInfinity
  | MinusInfinity, _ | _, MinusInfinity => MinusInfinity
  end.

(** [floor (log2 (num / den))] for [num > 0] and [den > 0]. *)
Definition log2_quotient (num den : Z) : Z :=
  let k := Z.log2 num - Z.log2 den in
  if 0 <=? k
  then (if den * 2 ^ k <=? num then k else k - 1)
  else (if den <=? num * 2 ^ (- k) then k else k - 1).

(** [Math.round (s / n)] for an integer double [s] and a length [n > 0].
    The quotient is the double nearest to [s / n]: [m * 2 ^ e], where
    [2 ^ e] is the distance between the doubles around [s / n], at least
    [2 ^ -1074].  [Math.round] then gives the nearest integer, a half
    going up. *)
Definition round_quotient (s n : Z) : Z :=
  if s =? 0 then 0
  else
    let a := Z.abs s in
    let e := Z.max (log2_quotient a n - 52) (- 1074) in
    let m := Z.sgn s * (if 0 <=? e then round_even a (n * 2 ^ e)
                        else round_even (a * 2 ^ (- e)) n) in
    if 0 <=? e then m * 2 ^ e
    else (2 * m + 2 ^ (- e)) / (2 * 2 ^ (- e)).

(** [x < bound] for an integer [bound]. *)
Definition number_ltb (x : number) (bound : Z) : bool :=
  match x with
  | Finite v => v <? bound
  | MinusInfinity => true
  | PlusInfinity | NotANumber => false
  end.

End Doubles.

(** [s.includes(k)]: [k] occurs in [s] as a contiguous substring. *)
Fixpoint includes (s k : string) : bool :=
  if String.prefix k s then true
  else match s with
       | EmptyString => false
       | String _ s' => includes s' k
       end.

(** *** JSON values, as [JSON.parse] and axios deliver them

    A number is carried by the text [Number.prototype.toString] gives for
    it, which is also what [JSON.stringify] prints; an object by its own
    properties in order. *)
Inductive json :=
| JNull
| JBool (b : bool)
| JNum (text : string)
| JStr (s : string)
| JArr (items : list json)
| JObj (fields : list (string * json)).

(** [!!v]. *)
Definition truthy (v : json) : bool :=
  match v with
  | JNull => false
  | JBool b => b
  | JNum t => negb (String.eqb t "0")
  | JStr s => negb (String.eqb s "")
  | JArr _ => true
  | JObj _ => true
  end.

(** [typeof v === "object"]. *)
Definition typeof_object (v : json) : bool :=
  match v with
  | JNull | JArr _ | JObj _ => true
  | _ => false
  end.

(** [v[key]] for a key that is no built-in property of [v]; [None] is
    [undefined]. *)
Fixpoint assoc (key : string) (fields : list (string * json)) : option json :=
  match fields with
  | [] => None
  | (k, v) :: rest => if String.eqb k key then Some v else assoc key rest
  end.

Definition get (v : json) (key : string) : option json :=
  match v with
  | JObj fields => assoc key fields
  | _ => None
  end.

(** [QuoteJSONString]: the quote, the backslash and the control
    characters are escaped, every other code unit is copied. *)
Definition char_dquote : ascii := ascii_of_nat 34.
Definition char_backslash : ascii := ascii_of_nat 92.

Definition hex_digit (n : nat) : ascii :=
  if n <? 10 then ascii_of_nat (48 + n) else ascii_of_nat (87 + n).

Definition escape_char (c : ascii) : string :=
  let n := nat_of_ascii c in
  let esc (x : ascii) := String char_backslash (String x EmptyString) in
  if n =? 34 then esc char_dquote
  else if n =? 92 then esc char_backslash
  else if n =? 8 then esc "b"%char
  else if n =? 9 then esc "t"%char
  else if n =? 10 then esc "n"%char
  else if n =? 12 then esc "f"%char
  else if n =? 13 then esc "r"%char
  else if n <? 32
       then String char_backslash
              ("u00" +:+ String (hex_digit (n / 16))
                          (String (hex_digit (n mod 16)) EmptyString))
       else String c EmptyString.

Fixpoint escape (s : string) : string :=
  match s with
  | EmptyString => EmptyString
  | String c s' => escape_char c +:+ escape s'
  end.

Definition quote (s : string) : string :=
  String char_dquote (escape s +:+ String char_dquote EmptyString).

(** [JSON.stringify v] without indentation. *)
Fixpoint stringify (v : json) : string :=
  match v with
  | JNull => "null"
  | JBool true => "true"
  | JBool false => "false"
  | JNum t => t
  | JStr s => quote s
  | JArr items => "[" +:+ String.concat "," (map stringify items) +:+ "]"
  | JObj fields =>
      "{" +:+ String.concat ","
                (map (fun kv => match kv with
                                | (k, x) => quote k +:+ ":" +:+ stringify x
                                end) fields) +:+ "}"
  end.

End Js.

(** ** The history window and the statistics *)

Module Aggregate.

(** One element of a day's [results], as the tasks of the main block
    build it (lines 186 and 195).  A disabled endpoint has no
    [latencyMs]. *)
Record result := mkResult {
  name : string;
  api : string;
  disabled : bool;
  success : bool;
  latencyMs : option Z;
  searchStatus : string
}.

(** [todayRecord] (lines 200-204). *)
Record day := mkDay {
  date : string;
  keyword : string;
  results : list result
}.

(** An element of [apiEntries] (lines 175-180). *)
Record entry := mkEntry {
  e_name : string;
  e_api : string;
  e_detail : string;
  e_disabled : bool
}.

(** [successRate] is the text [toFixed(1) + "%"] or ["-"]; the text is
    carried by its value in tenths of a percent. *)
Inductive rate :=
| RateNone               (* "-" *)
| RatePct (tenths : Z).  (* "d.d%" *)

(** [stats[api]] (line 212 and the assignments that follow). *)
Record stats := mkStats {
  s_name : string;
  s_api : string;
  s_detail : string;
  s_disabled : bool;
  ok : nat;
  fail : nat;
  fail_streak : nat;
  trend : string;
  s_searchStatus : string;
  status : string;
  latencyAvgMs : option Js.number;
  lastLatencyMs : option Z;
  reliable : string;
  successRate : rate
}.

(** The symbols written in the report. *)
Definition SYM_PASS : string := "✅".
Definition SYM_FAIL : string := "❌".
Definition SYM_NONE : string := "-".
Definition SYM_DISABLED : string := "🚫".
Definition SYM_ALERT : string := "🚨".
Definition TIER_HIGH : string := "✅ 高".
Definition TIER_MEDIUM : string := "⚠️ 中".
Definition TIER_LOW : string := "❌ 低".

(** Lines 206-207: [history.push(todayRecord)], then the window is cut
    to its last [MAX_DAYS] records when it is longer. *)
Definition push_history (history : list day) (todayRecord : day) : list day :=
  let history := history ++ [todayRecord] in
  if MAX_DAYS <? length history then Js.slice_last MAX_DAYS history
  else history.

(** [xs.find(x => x.api === api)]. *)
Definition find_api (a : string) (xs : list result) : option result :=
  List.find (fun x => String.eqb (api x) a) xs.

(** Lines 214-221: the counting loop, oldest record first. *)
Record counters := mkCounters {
  c_ok : nat;
  c_fail : nat;
  c_latencies : list Z
}.

Definition count_day (a : string) (c : counters) (d : day) : counters :=
  match find_api a (results d) with
  | None => c
  | Some rec =>
      let c1 := if success rec
                then mkCounters (S (c_ok c)) (c_fail c) (c_latencies c)
                else mkCounters (c_ok c) (S (c_fail c)) (c_latencies c) in
      match latencyMs rec with
      | Some l => mkCounters (c_ok c1) (c_fail c1) (c_latencies c1 ++ [l])
      | None => c1
      end
  end.

Definition count_loop (a : string) (history : list day) : counters :=
  fold_left (count_day a) history (mkCounters 0 0 []).

(** Lines 223-229: the streak loop.  [i] is the number of records not yet
    visited, so the record visited next is [history[i - 1]]; [continue]
    goes on with the same count, [break] returns it. *)
Fixpoint streak_loop (a : string) (history : list day) (i : nat) (streak : nat)
  : nat :=
  match i with
  | 0 => streak
  | S j =>
      match history !! j with
      | None => streak
      | Some d =>
          match find_api a (results d) with
          | None => streak_loop a history j streak
          | Some rec =>
              if success rec then streak
              else streak_loop a history j (S streak)
          end
      end
  end.

Definition streak (a : string) (history : list day) : nat :=
  streak_loop a history (length history) 0.

(** Line 231: [total > 0 ? ((ok / total) * 100).toFixed(1) + "%" : "-"].
    [toFixed(1)] rounds to the nearest tenth, a half upwards.  The
    quotient is taken exactly here; [success_rate_double] below takes it
    in double precision. *)
Definition success_rate (n_ok n_fail : nat) : rate :=
  let total := n_ok + n_fail in
  if 0 <? total
  then RatePct (Js.round_div (1000 * Z.of_nat n_ok) (Z.of_nat total))
  else RateNone.

(** The same line in double precision: [(ok / total) * 100] and then
    [toFixed(1)]. *)
Definition success_rate_double (n_ok n_fail : nat) : option rate :=
  let total := n_ok + n_fail in
  if 0 <? total
  then option_map RatePct
         (Js.toFixed1
            (PrimFloat.mul
               (PrimFloat.div (Js.double_of_nat n_ok) (Js.double_of_nat total))
               (Js.double_of_nat 100)))
  else Some RateNone.

(** Lines 233-237. *)
Definition trend_symbol (a : string) (d : day) : string :=
  match find_api a (results d) with
  | Some r => if success r then SYM_PASS else SYM_FAIL
  | None => SYM_NONE
  end.

Definition trend_of (a : string) (history : list day) : string :=
  String.concat "" (map (trend_symbol a) (Js.slice_last 7 history)).

(** Line 246: [latencies.reduce((a, b) => a + b, 0)], every addition in
    double precision. *)
Definition latency_sum (latencies : list Z) : Js.number :=
  fold_left (fun sum l => Js.number_add sum (Js.double_of_int l))
            latencies (Js.Finite 0).

(** Lines 245-248; [None] is the ["-"] of line 212.  An array has fewer
    than [2 ^ 32] elements, so its length is a double as it is.  An
    infinite sum stays infinite through the division and
    [Math.round]. *)
Definition latency_avg (latencies : list Z) : option Js.number :=
  match latencies with
  | [] => None
  | _ =>
      Some match latency_sum latencies with
           | Js.Finite s =>
               Js.Finite (Js.round_quotient s (Z.of_nat (length latencies)))
           | other => other
           end
  end.

(** The same lines on primitive doubles, for latencies from 0 to
    [2 ^ 63 - 1]. *)
Definition latency_avg_double (latencies : list Z) : option Z :=
  Js.Math_round
    (PrimFloat.div
       (fold_left (fun sum l => PrimFloat.add sum (Js.double_of_Z l))
                  latencies PrimFloat.zero)
       (Js.double_of_nat (length latencies))).

(** Line 250: [parseFloat] of the rate text, in tenths of a percent;
    [None] is [NaN]. *)
Definition rateNum (r : rate) : option Z :=
  match r with
  | RateNone => None
  | RatePct t => Some t
  end.

(** Line 251: [avgLatency < bound], where a missing average is
    [Infinity]. *)
Definition avg_below (latencyAvg : option Js.number) (bound : Z) : bool :=
  match latencyAvg with
  | Some v => Js.number_ltb v bound
  | None => false
  end.

(** Lines 250-256: the tier; [previous] is the value the field holds
    before, the ["-"] of line 212. *)
Definition reliable_of (previous : string) (r : rate)
    (latencyAvg : option Js.number) : string :=
  match rateNum r with
  | None => previous
  | Some rn =>
      if (900 <=? rn)%Z && avg_below latencyAvg 2500 then TIER_HIGH
      else if (700 <=? rn)%Z && avg_below latencyAvg 5000 then TIER_MEDIUM
      else TIER_LOW
  end.

(** Lines 258-260: the status symbol; [previous] is the ["❌"] of line
    212. *)
Definition status_of (previous : string) (is_disabled : bool) (n_streak : nat)
    (latest : option result) : string :=
  if is_disabled then SYM_DISABLED
  else if WARN_STREAK <=? n_streak then SYM_ALERT
  else match latest with
       | Some l => if success l then SYM_PASS else previous
       | None => previous
       end.

(** The body of the loop of lines 211-261 for one entry. *)
Definition stats_for (history : list day) (todayResults : list result)
    (e : entry) : stats :=
  let a := e_api e in
  let c := count_loop a history in
  let n_streak := streak a history in
  let sr := success_rate (c_ok c) (c_fail c) in
  let latest := find_api a todayResults in
  let avg := latency_avg (c_latencies c) in
  {| s_name := e_name e;
     s_api := a;
     s_detail := e_detail e;
     s_disabled := e_disabled e;
     ok := c_ok c;
     fail := c_fail c;
     fail_streak := 0;
     trend := trend_of a history;
     s_searchStatus :=
       match latest with Some l => searchStatus l | None => SYM_NONE end;
     status := status_of SYM_FAIL (e_disabled e) n_streak latest;
     latencyAvgMs := avg;
     lastLatencyMs :=
       match latest with Some l => latencyMs l | None => None end;
     reliable := reliable_of SYM_NONE sr avg;
     successRate := sr |}.

(** The object [stats], keyed by [api]: a later entry with the same [api]
    replaces an earlier one. *)
Definition build_stats (history : list day) (todayResults : list result)
    (apiEntries : list entry) : gmap string stats :=
  fold_left (fun m e => <[e_api e := stats_for history todayResults e]> m)
            apiEntries ∅.

(** A value of [config.api_site]; [detail] may be missing and [disabled]
    is read through [!!]. *)
Record site := mkSite {
  site_name : string;
  site_api : string;
  site_detail : option string;
  site_disabled : bool
}.

(** Lines 175-180.  [s.detail || "-"] replaces a missing detail and the
    empty text, which is falsy. *)
Definition entry_of (s : site) : entry :=
  {| e_name := site_name s;
     e_api := site_api s;
     e_detail := match site_detail s with
                 | Some d => if String.eqb d "" then "-" else d
                 | None => "-"
                 end;
     e_disabled := site_disabled s |}.

(** [Object.values(config.api_site).map(...)].  [api_site] holds the
    properties of [config.api_site] in the order in which [Object.values]
    (line 175) and [Object.entries] (line 360) list them. *)
Definition apiEntries_of (api_site : list (string * site)) : list entry :=
  map (fun kv => entry_of (snd kv)) api_site.

(** Lines 358-367: the test that admits a configuration entry to
    [reliable], and the object built from the admitted entries. *)
Definition is_reliable (st : gmap string stats) (val : site) : bool :=
  match st !! site_api val with
  | None => false
  | Some s =>
      match rateNum (successRate s) with
      | None => false
      | Some rn => (900 <=? rn)%Z && negb (String.eqb (status s) SYM_ALERT)
      end
  end.

Definition reliable_subset (st : gmap string stats)
    (api_site : list (string * site)) : list (string * site) :=
  List.filter (fun kv => is_reliable st (snd kv)) api_site.

(** The part of the main block after the probes: lines 200-261 and
    358-367. *)
Record report := mkReport {
  rp_history : list day;
  rp_stats : gmap string stats;
  rp_reliable : list (string * site)
}.

Definition aggregate (api_site : list (string * site)) (history : list day)
    (today : string) (kw : string) (todayResults : list result) : report :=
  let history := push_history history (mkDay today kw todayResults) in
  let st := build_stats history todayResults (apiEntries_of api_site) in
  {| rp_history := history;
     rp_stats := st;
     rp_reliable := reliable_subset st api_site |}.

(** *** Two readings of the streak, for comparison with [streak]

    The entries an endpoint has in the window, newest first; records
    without an entry contribute nothing. *)
Definition entries_newest_first (a : string) (history : list day)
  : list result :=
  omap (fun d => find_api a (results d)) (rev history).

(** The number of failing entries before the first successful one. *)
Fixpoint leading_failures (entries : list result) : nat :=
  match entries with
  | [] => 0
  | r :: older => if success r then 0 else S (leading_failures older)
  end.

(** The scan in the words of the specification of the aggregator: newest
    to oldest, counting failing entries, stopping at the first success or
    at the first record lacking an entry. *)
Fixpoint scan_stopping_at_missing (a : string) (newest_first : list day)
  : nat :=
  match newest_first with
  | [] => 0
  | d :: older =>
      match find_api a (results d) with
      | None => 0
      | Some r =>
          if success r then 0 else S (scan_stopping_at_missing a older)
      end
  end.

Definition streak_stopping_at_missing (a : string) (history : list day)
  : nat :=
  scan_stopping_at_missing a (rev history).

(** The average latency of [s] is a number below [bound]. *)
Definition latency_under (s : stats) (bound : Z) : Prop :=
  exists v, latencyAvgMs s = Some v /\ Js.number_ltb v bound = true.

End Aggregate.

(** ** The probe and the search test, with their retries *)

Module Retry.
Import Js.

(** *** The network and the clock

    The script talks to the network through axios and reads the clock
    through [Date.now()].  Both are scripted: every request consumes the
    next [reply], which says how long the request takes and whether the
    promise rejects or resolves.  A response to a streaming request also
    carries what its stream emits first.  A request made when the script
    is exhausted rejects at once. *)
Inductive stream_event :=
| FirstData (dt : Z)      (* a chunk arrives after [dt] ms *)
| EndOrError (dt : Z).    (* the stream ends or fails after [dt] ms *)

Record response := mkResponse {
  status : Z;
  data : json;
  first_event : stream_event
}.

Inductive reply :=
| Rejects (dt : Z)
| Resolves (dt : Z) (r : response).

Inductive method := HEAD | STREAM | GET.

(** What can be observed of a run: the turns of the retry loops (the
    [attempt] that [safeGet] logs at lines 95 and 100), the requests and
    the delays slept, in order. *)
Inductive event :=
| Attempt (n : nat)                      (* a turn of a retry loop begins *)
| Requested (m : method) (url : string)
| Slept (ms : Z).

Record world := mkWorld {
  now : Z;
  script : list reply;
  trace : list event
}.

(** A computation either returns or throws, and leaves a world. *)
Inductive outcome (A : Type) :=
| Returned (a : A)
| Thrown.
Arguments Returned {A} a.
Arguments Thrown {A}.

Definition M (A : Type) : Type := world -> outcome A * world.

Definition ret {A} (a : A) : M A := fun w => (Returned a, w).

Definition throw {A} : M A := fun w => (Thrown, w).

Definition bind {A B} (m : M A) (k : A -> M B) : M B :=
  fun w => match m w with
           | (Returned a, w') => k a w'
           | (Thrown, w') => (Thrown, w')
           end.

(** [try { m } catch { handler }]. *)
Definition try_catch {A} (m : M A) (handler : M A) : M A :=
  fun w => match m w with
           | (Returned a, w') => (Returned a, w')
           | (Thrown, w') => handler w'
           end.

Declare Scope retry_scope.
Delimit Scope retry_scope with retry.
Notation "'let*' x := m 'in' k" := (bind m (fun x => k))
  (at level 10, x name, m at level 100, k at level 200) : retry_scope.
Notation "m ;; k" := (bind m (fun _ => k))
  (at level 100, k at level 200, right associativity) : retry_scope.
Local Open Scope retry_scope.

(** [Date.now()]. *)
Definition date_now : M Z := fun w => (Returned (now w), w).

Definition advance (dt : Z) : M unit :=
  fun w => (Returned tt, mkWorld (now w + dt) (script w) (trace w)).

Definition emit (e : event) : M unit :=
  fun w => (Returned tt, mkWorld (now w) (script w) (trace w ++ [e])).

(** [await delay(ms)]. *)
Definition delay (ms : Z) : M unit := emit (Slept ms) ;; advance ms.

(** [await axios.<method>(url, ...)]. *)
Definition request (m : method) (url : string) : M response :=
  emit (Requested m url) ;;
  fun w => match script w with
           | [] => (Thrown, w)
           | Rejects dt :: rest =>
               (Thrown, mkWorld (now w + dt) rest (trace w))
           | Resolves dt r :: rest =>
               (Returned r, mkWorld (now w + dt) rest (trace w))
           end.

(** *** [safeGet] (lines 90-125) *)

(** The object [{ success, latencyMs }]. *)
Record probe := mkProbe {
  success : bool;
  latencyMs : Z
}.

(** Lines 95-98: the HEAD request. *)
Definition head_attempt (url : string) (start : Z) : M probe :=
  let* resHead := request HEAD url in
  let* t := date_now in
  ret (mkProbe (status resHead =? 200)%Z (t - start)).

(** Lines 100-117: the streaming GET, stopped at the first chunk. *)
Definition stream_attempt (url : string) (start : Z) : M probe :=
  let* t0 := date_now in
  let* res := request STREAM url in
  let* ttfb := match first_event res with
               | FirstData dt =>
                   advance dt ;; let* t := date_now in ret (Some (t - t0)%Z)
               | EndOrError dt => advance dt ;; ret None
               end in
  let* t := date_now in
  ret (mkProbe (status res =? 200)%Z
               (match ttfb with Some v => v | None => t - start end)%Z).

(** Lines 94-118: one probe, HEAD first and the streaming GET when HEAD
    throws. *)
Definition probe_once (url : string) (start : Z) : M probe :=
  try_catch (head_attempt url start) (stream_attempt url start).

(** The [for] loop of lines 91-124, with the constants as parameters.
    [fuel] bounds the number of iterations; [None] is the [undefined] a
    loop that ends without [return] gives. *)
Fixpoint safeGet_loop (max_retry : nat) (retry_delay_ms : Z) (fuel : nat)
    (attempt : nat) (url : string) : M (option probe) :=
  match fuel with
  | 0 => ret None
  | S fuel' =>
      if attempt <=? max_retry then
        emit (Attempt attempt) ;;
        let* start := date_now in
        try_catch
          (let* p := probe_once url start in ret (Some p))
          (let* t := date_now in
           if attempt <? max_retry
           then delay (retry_delay_ms * Z.of_nat attempt) ;;
                safeGet_loop max_retry retry_delay_ms fuel' (S attempt) url
           else ret (Some (mkProbe false (t - start))))
      else ret None
  end.

Definition safeGet (url : string) : M (option probe) :=
  safeGet_loop MAX_RETRY RETRY_DELAY_MS MAX_RETRY 1 url.

(** *** [testSearch] (lines 127-141) *)

Definition SEARCH_PASS : string := "✅".
Definition SEARCH_FAIL : string := "❌".
Definition SEARCH_NO_RESULTS : string := "无结果".
Definition SEARCH_MISMATCH : string := "不匹配".

(** Lines 132-135 on a response.  A [list] that is a string has a
    [length] and no [some], and so has an object whose own [length] is
    truthy: calling [list.some] throws a TypeError. *)
Definition classify (keyword : string) (st : Z) (body : json)
  : outcome string :=
  if negb (st =? 200)%Z || negb (truthy body) || negb (typeof_object body)
  then Returned SEARCH_FAIL
  else
    let list := match get body "list" with
                | Some v => if truthy v then v else JArr []
                | None => JArr []
                end in
    match list with
    | JArr [] => Returned SEARCH_NO_RESULTS
    | JArr items =>
        Returned
          (if existsb (fun item => includes (stringify item) keyword) items
           then SEARCH_PASS else SEARCH_MISMATCH)
    | JStr _ => Thrown
    | JObj _ =>
        match get list "length" with
        | Some n => if truthy n then Thrown else Returned SEARCH_NO_RESULTS
        | None => Returned SEARCH_NO_RESULTS
        end
    | _ => Returned SEARCH_NO_RESULTS
    end.

Section TestSearch.

(** [encodeURIComponent]; [None] when it throws a URIError. *)
Variable encodeURIComponent : string -> option string.

(** Lines 130-135: one pass through the [try] block. *)
Definition search_attempt (a keyword : string) : M string :=
  match encodeURIComponent keyword with
  | None => throw
  | Some q =>
      let* res := request GET (a +:+ "?wd=" +:+ q) in
      fun w => (classify keyword (status res) (data res), w)
  end.

(** The [for] loop of lines 128-140, with the constants as parameters. *)
Fixpoint testSearch_loop (max_retry : nat) (retry_delay_ms : Z) (fuel : nat)
    (attempt : nat) (a keyword : string) : M (option string) :=
  match fuel with
  | 0 => ret None
  | S fuel' =>
      if attempt <=? max_retry then
        emit (Attempt attempt) ;;
        try_catch
          (let* s := search_attempt a keyword in ret (Some s))
          (if attempt <? max_retry
           then delay retry_delay_ms ;;
                testSearch_loop max_retry retry_delay_ms fuel' (S attempt)
                                a keyword
           else ret (Some SEARCH_FAIL))
      else ret None
  end.

Definition testSearch (a keyword : string) : M (option string) :=
  testSearch_loop MAX_RETRY RETRY_DELAY_MS MAX_RETRY 1 a keyword.

(** The first turn of [testSearch] ends in its [catch]. *)
Definition search_turn_fails (keyword : string) (sc : list reply) : bool :=
  match encodeURIComponent keyword with
  | None => true
  | Some _ =>
      match sc with
      | [] => true
      | Rejects _ :: _ => true
      | Resolves _ resp :: _ =>
          match classify keyword (status resp) (data resp) with
          | Thrown => true
          | Returned _ => false
          end
      end
  end.

End TestSearch.

(** *** Reading a trace *)

(** The turns and the delays of a trace, the requests left out. *)
Definition timeline (tr : list event) : list event :=
  List.filter (fun e => match e with Requested _ _ => false | _ => true end)
              tr.

(** The number of turns in a trace. *)
Definition attempts (tr : list event) : nat :=
  length (List.filter (fun e => match e with Attempt _ => true | _ => false end)
                      tr).

(** The timeline of [count] turns numbered from [first] under linear
    backoff: after turn [n] and before turn [n + 1] the loop sleeps
    [base * n]; nothing follows the last turn. *)
Fixpoint linear_backoff (base : Z) (first count : nat) : list event :=
  match count with
  | 0 => []
  | S c =>
      Attempt first ::
      match c with
      | 0 => []
      | S _ => Slept (base * Z.of_nat first) :: linear_backoff base (S first) c
      end
  end.


(** A reply that makes a turn of [safeGet] go on to its next request. *)
Definition rejects (r : reply) : bool :=
  match r with
  | Rejects _ => true
  | Resolves _ _ => false
  end.

(** A reply that makes a turn of [testSearch] end in its [catch]. *)
Definition search_fails (keyword : string) (r : reply) : bool :=
  match r with
  | Rejects _ => true
  | Resolves _ resp =>
      match classify keyword (status resp) (data resp) with
      | Thrown => true
      | Returned _ => false
      end
  end.

(** The first turn of [safeGet] ends in its [catch]: its two requests
    reject, an exhausted script rejecting too. *)
Definition probe_fails (sc : list reply) : bool :=
  forallb rejects (take 2 sc).


(** The time a reply takes. *)
Definition reply_dt (r : reply) : Z :=
  match r with
  | Rejects dt => dt
  | Resolves dt _ => dt
  end.

Definition total_dt (rs : list reply) : Z :=
  fold_right (fun r acc => (reply_dt r + acc)%Z) 0%Z rs.

(** A body that passes the test of line 132. *)
Definition structured (body : json) : bool :=
  truthy body && typeof_object body.

(** [k] occurs in [s]. *)
Definition substring_of (k s : string) : Prop :=
  exists pre post, s = pre +:+ k +:+ post.

End Retry.

(** ** The bounded scheduler *)

Module Queue.

(** A task is a zero-argument async function: calling it gives a promise
    that later resolves with a value or rejects with an error. *)
Inductive settlement (V E : Type) :=
| Resolve (v : V)
| Reject (err : E).
Arguments Resolve {V E} v.
Arguments Reject {V E} err.

(** What [results[i]] receives: [res] from the [then] callback or the
    object [{ error: err }] from the [catch] callback (lines 154-155). *)
Inductive slot (V E : Type) :=
| Value (v : V)
| ErrorObject (err : E).
Arguments Value {V E} v.
Arguments ErrorObject {V E} err.

Definition capture {V E} (t : settlement V E) : slot V E :=
  match t with
  | Resolve v => Value v
  | Reject err => ErrorObject err
  end.

(** JavaScript runs one callback at a time, to its end.  [InNext] is the
    inside of a call of [next], [Idle] the event loop between two
    callbacks. *)
Inductive control := InNext | Idle.

(** The variables of [queueRun], and of each started task where it
    stands: [running] holds the tasks whose promise is pending, [settled]
    those whose result is written (line 154 or 155) and whose [finally]
    callback has not run yet. *)
Record state (V E : Type) := mkState {
  index : nat;
  active : nat;
  results : list (option (slot V E));
  running : list nat;
  settled : list nat;
  pc : control;
  resolved : bool
}.
Arguments mkState {V E}.
Arguments index {V E}.
Arguments active {V E}.
Arguments results {V E}.
Arguments running {V E}.
Arguments settled {V E}.
Arguments pc {V E}.
Arguments resolved {V E}.

(** The steps of a run:
    - [Admit]: one turn of the [while] loop (lines 151-160);
    - [Leave]: the loop condition fails, line 162 runs and [next] returns;
    - [Settle i]: the [then] or the [catch] callback of task [i] runs;
    - [Finalize i]: the [finally] callback of task [i] runs and calls
      [next]. *)
Inductive event :=
| Admit
| Leave
| Settle (i : nat)
| Finalize (i : nat).

Definition remove_index (i : nat) (l : list nat) : list nat :=
  List.filter (fun j => negb (j =? i)) l.

Definition mem_index (i : nat) (l : list nat) : bool :=
  existsb (fun j => j =? i) l.

Section Run.

Context {V E : Type}.
Variable tasks : list (settlement V E).
Variable limit : nat.

(** Lines 145-147, at the first call of [next] (line 165). *)
Definition init : state V E :=
  mkState 0 0 [] [] [] InNext false.

(** The condition of the [while] loop. *)
Definition loop_condition (s : state V E) : bool :=
  (active s <? limit) && (index s <? length tasks).

Definition step (e : event) (s : state V E) : option (state V E) :=
  match e, pc s with
  | Admit, InNext =>
      if loop_condition s
      then Some (mkState (S (index s)) (S (active s)) (results s)
                         (running s ++ [index s]) (settled s)
                         InNext (resolved s))
      else None
  | Leave, InNext =>
      if loop_condition s then None
      else Some (mkState (index s) (active s) (results s)
                         (running s) (settled s) Idle
                         (resolved s
                          || ((length tasks <=? index s) && (active s =? 0))))
  | Settle i, Idle =>
      match mem_index i (running s), tasks !! i with
      | true, Some t =>
          Some (mkState (index s) (active s)
                        (Js.array_set (results s) i (capture t))
                        (remove_index i (running s)) (settled s ++ [i])
                        Idle (resolved s))
      | _, _ => None
      end
  | Finalize i, Idle =>
      if mem_index i (settled s)
      then Some (mkState (index s) (active s - 1) (results s)
                         (running s) (remove_index i (settled s))
                         InNext (resolved s))
      else None
  | _, _ => None
  end.

(** A run is a sequence of steps. *)
Fixpoint exec (es : list event) (s : state V E) : option (state V E) :=
  match es with
  | [] => Some s
  | e :: es' =>
      match step e s with
      | Some s' => exec es' s'
      | None => None
      end
  end.

(** The tasks that are started and not completed. *)
Definition in_flight (s : state V E) : list nat := running s ++ settled s.

(** The steps a state allows. *)
Definition enabled (s : state V E) : list event :=
  match pc s with
  | InNext => if loop_condition s then [Admit] else [Leave]
  | Idle => map Settle (running s) ++ map Finalize (settled s)
  end.

(** [queueRun] under a completion order: whenever several callbacks could
    run, [order] picks one.  The promise is resolved with [results] at
    line 162; [None] is a promise that never resolves. *)
Fixpoint run (order : state V E -> nat) (fuel : nat) (s : state V E)
  : option (list (option (slot V E))) :=
  if resolved s then Some (results s)
  else match fuel with
       | 0 => None
       | S fuel' =>
           match enabled s with
           | [] => None
           | e :: es =>
               let chosen := nth (order s mod length (e :: es)) (e :: es) e in
               match step chosen s with
               | Some s' => run order fuel' s'
               | None => None
               end
           end
       end.

Definition queueRun (order : state V E -> nat)
  : option (list (option (slot V E))) :=
  run order (4 * length tasks + 1) init.

(** Every callback that is still to run weighs on a state. *)
Definition weight (s : state V E) : nat :=
  4 * (length tasks - index s) + 3 * length (running s)
  + 2 * length (settled s)
  + match pc s with InNext => 1 | Idle => 0 end.

(** What [queueRun] promises for [tasks]: one slot per task, in the order
    of the tasks. *)
Definition expected : list (option (slot V E)) :=
  map (fun t => Some (capture t)) tasks.

(** What holds of every state of a run. *)
Record invariant (s : state V E) : Prop := mkInvariant {
  inv_active : active s = length (running s) + length (settled s);
  inv_limit : active s <= limit;
  inv_index : index s <= length tasks;
  inv_started : forall i, In i (running s) \/ In i (settled s) -> i < index s;
  inv_nodup_running : List.NoDup (running s);
  inv_nodup_settled : List.NoDup (settled s);
  inv_disjoint : forall i, In i (running s) -> ~ In i (settled s);
  inv_written :
    forall i t, tasks !! i = Some t -> i < index s -> ~ In i (running s) ->
                results s !! i = Some (Some (capture t));
  inv_length : length (results s) <= index s;
  inv_resolved :
    resolved s = true ->
    pc s = Idle /\ index s = length tasks /\ active s = 0;
  inv_idle :
    1 <= limit -> pc s = Idle -> resolved s = true \/ 0 < active s
}.

End Run.

End Queue.

(** ** The task of one endpoint *)

Module Main.
Import Js Retry.
Local Open Scope retry_scope.

Definition STATUS_UNSEARCHABLE : string := "无法搜索".
Definition STATUS_SLOW : string := "慢速".
Definition STATUS_UNTESTED : string := "-".

(** What a task returns (lines 186 and 195).  A disabled endpoint has no
    [latencyMs]; [searchStatus] is [None] when it is [undefined], the
    value of a [testSearch] whose loop ends without [return]. *)
Record output := mkOutput {
  o_name : string;
  o_api : string;
  o_disabled : bool;
  o_success : bool;
  o_latencyMs : option Z;
  o_searchStatus : option string
}.

Section Task.

Variable encodeURIComponent : string -> option string.

(** Lines 190-192: the search test is run only after a successful probe
    faster than 2000 ms. *)
Definition search_status (a keyword : string) (p : probe)
  : M (option string) :=
  if ENABLE_SEARCH_TEST then
    if success p then
      if (latencyMs p <? 2000)%Z
      then testSearch encodeURIComponent a keyword
      else ret (Some STATUS_SLOW)
    else ret (Some STATUS_UNTESTED)
  else ret (Some STATUS_UNTESTED).

(** Lines 185-196, the log lines and their counter left out.
    Destructuring the [undefined] of a [safeGet] whose loop ends without
    [return] throws a TypeError. *)
Definition task (keyword : string) (e : Aggregate.entry) : M output :=
  if Aggregate.e_disabled e
  then ret (mkOutput (Aggregate.e_name e) (Aggregate.e_api e) true false None
                     (Some STATUS_UNSEARCHABLE))
  else
    let* r := safeGet (Aggregate.e_api e) in
    match r with
    | None => throw
    | Some p =>
        let* searchStatus := search_status (Aggregate.e_api e) keyword p in
        ret (mkOutput (Aggregate.e_name e) (Aggregate.e_api e)
                      (Aggregate.e_disabled e) (success p)
                      (Some (latencyMs p)) searchStatus)
    end.

End Task.

(** The element of [todayResults] an output is, when its [searchStatus]
    is a text. *)
Definition as_result (o : output) : option Aggregate.result :=
  match o_searchStatus o with
  | Some st =>
      Some (Aggregate.mkResult (o_name o) (o_api o) (o_disabled o)
                               (o_success o) (o_latencyMs o) st)
  | None => None
  end.

(** The requests of one method in a trace. *)
Definition requests_of (m : method) (tr : list event) : list string :=
  omap (fun e => match e, m with
                 | Requested HEAD u, HEAD => Some u
                 | Requested STREAM u, STREAM => Some u
                 | Requested GET u, GET => Some u
                 | _, _ => None
                 end) tr.

(** All the requests of a trace. *)
Definition requests (tr : list event) : list event :=
  List.filter (fun e => match e with Requested _ _ => true | _ => false end)
              tr.

(** The delays of a trace. *)
Definition sleeps (tr : list event) : list Z :=
  omap (fun e => match e with Slept ms => Some ms | _ => None end) tr.

End Main.

(** ** The command line (lines 16 and 34-36)

    Texts are lists of bytes here and lists of UTF-16 units in the
    source.  The flag and the separator are ASCII, and an ASCII byte is
    never part of the encoding of another character, so [startsWith] and
    [split] cut a text at the same places in both. *)

Module Cli.

Definition DEFAULT_KEYWORD : string := "斗罗大陆".

(** [process.argv[2] || "斗罗大陆"]; [args] is [process.argv.slice(2)], so
    [process.argv[2]] is its first element.  An empty text is falsy. *)
Definition SEARCH_KEYWORD (args : list string) : string :=
  match args with
  | [] => DEFAULT_KEYWORD
  | a :: _ => if String.eqb a "" then DEFAULT_KEYWORD else a
  end.

(** [s.split(c)] for a separator of one character. *)
Fixpoint split (c : ascii) (s : string) : list string :=
  match s with
  | EmptyString => [EmptyString]
  | String x s' =>
      if Ascii.eqb x c then EmptyString :: split c s'
      else match split c s' with
           | piece :: pieces => String x piece :: pieces
           | [] => [String x EmptyString]
           end
  end.

Definition FLAG : string := "--source-url=".

(** [argv.find(a => a.startsWith("--source-url="))]. *)
Definition sourceUrlArg (args : list string) : option string :=
  List.find (fun a => String.prefix FLAG a) args.

(** [sourceUrlArg ? sourceUrlArg.split("=")[1] : null]; [None] is
    [null]. *)
Definition SOURCE_URL (args : list string) : option string :=
  match sourceUrlArg args with
  | Some a => nth_error (split "="%char a) 1
  | None => None
  end.

(** The test [if (SOURCE_URL)] of line 40: the configuration is loaded
    from the network. *)
Definition loads_remote (args : list string) : bool :=
  match SOURCE_URL args with
  | Some u => negb (String.eqb u "")
  | None => false
  end.

(** A text without the character [c]. *)
Fixpoint free_of (c : ascii) (s : string) : bool :=
  match s with
  | EmptyString => true
  | String x s' => negb (Ascii.eqb x c) && free_of c s'
  end.

End Cli.

(** ** The rows of the report (lines 270-273) *)

Module Report.
Import Aggregate.

(** The table [order] of line 271; [None] is [undefined]. *)
Definition order (st : string) : option Z :=
  if String.eqb st SYM_ALERT then Some 1%Z
  else if String.eqb st SYM_FAIL then Some 2%Z
  else if String.eqb st SYM_PASS then Some 3%Z
  else if String.eqb st SYM_DISABLED then Some 4%Z
  else None.

(** The comparator of line 272.  With an unknown status the difference is
    [NaN], which [sort] reads as 0. *)
Definition compare_status (a b : stats) : Z :=
  match order (status a), order (status b) with
  | Some x, Some y => (x - y)%Z
  | _, _ => 0%Z
  end.

(** [Array.prototype.sort] is stable: an element stays before the later
    elements it does not compare greater than.  On a comparator that is
    an order the result is the same for every stable sort; it is computed
    here by insertion. *)
Fixpoint insert_before {A} (cmp : A -> A -> Z) (x : A) (l : list A) : list A :=
  match l with
  | [] => [x]
  | y :: ys =>
      if (cmp x y <=? 0)%Z then x :: y :: ys
      else y :: insert_before cmp x ys
  end.

Definition sort {A} (cmp : A -> A -> Z) (l : list A) : list A :=
  fold_right (insert_before cmp) [] l.

(** *** The own properties of an object, in the order [Object.values]
    lists them: the array indices first, in ascending order, then the
    other keys in the order of their creation. *)

(** The value of a decimal digit. *)
Definition digit (c : ascii) : option N :=
  let n := N_of_ascii c in
  if ((48 <=? n) && (n <=? 57))%N then Some (n - 48)%N else None.

Fixpoint digits (s : string) (acc : N) : option N :=
  match s with
  | EmptyString => Some acc
  | String c s' =>
      match digit c with
      | Some d => digits s' (10 * acc + d)%N
      | None => None
      end
  end.

(** A key is an array index when it is the decimal text, without a
    leading zero, of an integer from 0 to [2 ^ 32 - 2]. *)
Definition array_index (k : string) : option N :=
  match k with
  | EmptyString => None
  | String c rest =>
      if Ascii.eqb c "0"
      then (if String.eqb rest EmptyString then Some 0%N else None)
      else match digits k 0 with
           | Some n => if (n <=? 4294967294)%N then Some n else None
           | None => None
           end
  end.

(** A new key [k] is listed before the key [k']. *)
Definition listed_before (k k' : string) : bool :=
  match array_index k, array_index k' with
  | Some n, Some n' => (n <? n')%N
  | Some _, None => true
  | None, _ => false
  end.

(** A key that is an own property of an object literal whatever the
    object: [o["__proto__"] = v] sets the prototype of [o] instead. *)
Definition PROTO : string := "__proto__".

Fixpoint own_property_set {A} (k : string) (v : A) (o : list (string * A))
  : list (string * A) :=
  match o with
  | [] => [(k, v)]
  | (k', v') :: rest =>
      if String.eqb k' k then (k', v) :: rest
      else if listed_before k k' then (k, v) :: (k', v') :: rest
      else (k', v') :: own_property_set k v rest
  end.

(** [o[k] = v] for an object [v], on an object [o] made by an object
    literal: a known key keeps its place, a new key takes the place its
    kind gives it, and ["__proto__"] creates no property. *)
Definition object_set {A} (k : string) (v : A) (o : list (string * A))
  : list (string * A) :=
  if String.eqb k PROTO then o else own_property_set k v o.

(** A key that is listed where it was created. *)
Definition plain_key (k : string) : bool :=
  negb (String.eqb k PROTO)
  && match array_index k with Some _ => false | None => true end.

(** The object [stats] with its keys in order, and [Object.values]. *)
Definition stats_object (history : list day) (todayResults : list result)
    (apiEntries : list entry) : list (string * stats) :=
  fold_left
    (fun o e => object_set (e_api e) (stats_for history todayResults e) o)
    apiEntries [].

Definition stats_values (history : list day) (todayResults : list result)
    (apiEntries : list entry) : list stats :=
  map snd (stats_object history todayResults apiEntries).

(** [sorted] (line 270). *)
Definition sorted (history : list day) (todayResults : list result)
    (apiEntries : list entry) : list stats :=
  sort compare_status (stats_values history todayResults apiEntries).

(** The rank of a row; a status outside the table ranks last. *)
Definition rank (s : stats) : Z :=
  match order (status s) with
  | Some x => x
  | None => 5%Z
  end.

End Report.

(** ** Sample inputs *)

Module Samples.
Import Aggregate.

Definition api_a : string := "https://a.example/api.php/provide/vod".

Definition passed (a : string) (ms : Z) : result :=
  mkResult "A" a false true (Some ms) "✅".

Definition failed (a : string) (ms : Z) : result :=
  mkResult "A" a false false (Some ms) "-".

(** What the task of a disabled endpoint returns (line 186). *)
Definition skipped (a : string) : result :=
  mkResult "A" a true false None "无法搜索".

Definition day_of (d : string) (rs : list result) : day :=
  mkDay d "斗罗大陆" rs.

(** A full window: one record per day, the endpoint absent from the
    oldest one and passing in the others. *)
Definition full_window : list day :=
  day_of "2026-01-01" []
  :: map (fun i => day_of "2026-01" [passed api_a (200 + Z.of_nat i)])
         (seq 2 29).

Definition today : day := day_of "2026-01-31" [failed api_a 8000].

(** The endpoint fails in the older record and is absent from the newer
    one. *)
Definition window_with_gap : list day :=
  [ day_of "2026-01-01" [failed api_a 8000];
    day_of "2026-01-02" [] ].

(** The endpoint fails, is absent from the next record, and fails again
    in the newest one. *)
Definition window_with_gap_before_today : list day :=
  [ day_of "2026-01-01" [failed api_a 8000];
    day_of "2026-01-02" [];
    day_of "2026-01-03" [failed api_a 8000] ].

(** The example of the specification: fail, fail, success, fail. *)
Definition window_ffsf : list day :=
  [ day_of "2026-01-01" [failed api_a 8000];
    day_of "2026-01-02" [failed api_a 8000];
    day_of "2026-01-03" [passed api_a 300];
    day_of "2026-01-04" [failed api_a 8000] ].

Definition entry_a : entry := mkEntry "A" api_a "-" false.

(** A configuration with one endpoint, disabled today after 27 good days
    and two bad ones. *)
Definition site_a_disabled : site := mkSite "A" api_a None true.


Definition window_27_2 : list day :=
  repeat (day_of "2026-01" [passed api_a 300]) 27
  ++ repeat (day_of "2026-01" [failed api_a 8000]) 2.

(** The same address configured twice: disabled first, enabled second. *)
Definition config_duplicate : list (string * site) :=
  [("a", site_a_disabled); ("b", mkSite "B" api_a None false)].

(** A keyword without reserved characters is its own encoding. *)
Definition encode_plain (s : string) : option string := Some s.

(** Every request is refused: 40 ms for a HEAD, the timeout for a GET. *)
Definition world_refusing : Retry.world :=
  Retry.mkWorld 0
    [Retry.Rejects 40; Retry.Rejects 8000; Retry.Rejects 35;
     Retry.Rejects 8000] [].

Definition answer (st : Z) (body : Js.json) : Retry.reply :=
  Retry.Resolves 120 (Retry.mkResponse st body (Retry.EndOrError 0)).

Definition world_answering (st : Z) (body : Js.json) : Retry.world :=
  Retry.mkWorld 0 [answer st body] [].

(** The bodies of the examples of the specification. *)
Definition body_match : Js.json :=
  Js.JObj [("list", Js.JArr [Js.JObj [("title", Js.JStr "斗罗大陆")]])].

Definition body_empty : Js.json := Js.JObj [("list", Js.JArr [])].

Definition body_other : Js.json :=
  Js.JObj [("list", Js.JArr [Js.JObj [("title", Js.JStr "other")]])].

Definition body_html : Js.json := Js.JStr "<html>not found</html>".

(** A structured body without a [list] field. *)
Definition body_no_list : Js.json :=
  Js.JObj [("code", Js.JNum "1"); ("msg", Js.JStr "ok")].

(** Three tasks, the second of which rejects. *)
Definition three_tasks : list (Queue.settlement Z string) :=
  [Queue.Resolve 1%Z; Queue.Reject "ECONNRESET"; Queue.Resolve 3%Z].

(** Two completion orders: the callback queued first, the one queued
    last. *)
Definition oldest_first (s : Queue.state Z string) : nat := 0.

Definition newest_first (s : Queue.state Z string) : nat :=
  length (Queue.running s) + length (Queue.settled s) - 1.

End Samples.

(** ** Reading the array of the scheduler *)

Module QueueReading.
Import Queue.

(** Every value in the array is the outcome of the task of its slot, and
    that task has settled. *)
Definition slots_written_by_owner {V E : Type}
    (tasks : list (settlement V E)) (s : state V E) : Prop :=
  forall i v,
    results s !! i = Some (Some v) ->
    i < index s /\ ~ In i (running s)
    /\ exists t, tasks !! i = Some t /\ v = capture t.

End QueueReading.

(** ** Reading a window *)

Module Window.
Import Aggregate.

(** The entries an endpoint has in the window, oldest first. *)
Definition entries_of (a : string) (history : list day) : list result :=
  omap (fun d => find_api a (results d)) history.

(** The numeric latencies of the entries, oldest first. *)
Definition latencies_of (a : string) (history : list day) : list Z :=
  omap latencyMs (entries_of a history).

(** The three tiers. *)
Definition is_tier (t : string) : Prop :=
  t = TIER_HIGH \/ t = TIER_MEDIUM \/ t = TIER_LOW.

(** The four status symbols. *)
Definition is_status (t : string) : Prop :=
  t = SYM_ALERT \/ t = SYM_FAIL \/ t = SYM_PASS \/ t = SYM_DISABLED.

End Window.

(** ** More sample inputs *)

Module Cases.
Import Aggregate Samples.

(** Three days of an endpoint: 300 ms, a failure at the timeout, 500 ms. *)
Definition window_three : list day :=
  [ day_of "2026-02-01" [passed api_a 300];
    day_of "2026-02-02" [failed api_a 8000];
    day_of "2026-02-03" [passed api_a 500] ].

Definition api_b : string := "https://b.example/api.php/provide/vod".

Definition site_a : site := mkSite "A" api_a None false.
Definition site_b : site := mkSite "B" api_b (Some "https://b.example") false.

Definition config_ab : list (string * site) :=
  [("a", site_a); ("b", site_b)].

(** Today [A] passes and [B] fails. *)
Definition today_ab : list result :=
  [passed api_a 250; mkResult "B" api_b false false (Some 8000%Z) "-"].

(** [A] passed and [B] failed on each of the three days before. *)
Definition window_ab : list day :=
  repeat (day_of "2026-02"
            [passed api_a 300;
             mkResult "B" api_b false false (Some 8000%Z) "-"]) 3.

Definition entry_b : entry := entry_of site_b.

(** Latencies on which the two computations of the average are
    compared. *)
Definition latency_samples : list (list Z) :=
  [ [120]; [300; 500; 8000]; [1; 2]; [1; 2; 2]; [0; 0; 1]; [0; 0];
    [7; 8; 8; 8; 8; 8; 8]; [2499; 2500]; [4999; 5000; 5000];
    [4503599627370497; 4503599627370497];
    [6004799503160662; 6004799503160662; 6004799503160662];
    [9007199254740991; 9007199254740991; 3];
    [9007199254740993; 1];
    [4611686018427387904; 4611686018427387905; 7];
    [9223372036854775807; 9223372036854775807; 9223372036854775807; 1];
    [3002399751580331; 3002399751580330; 3002399751580331] ]%Z.

End Cases.

(** * Properties *)

(** ** The history window *)

Section HistoryWindow.
Import Aggregate.

Lemma slice_last_length {A} (n : nat) (a : list A) :
  n <= length a -> length (Js.slice_last n a) = n.
Proof.
  intros Hn. unfold Js.slice_last. rewrite length_skipn. lia.
Qed.

Lemma push_history_unfold (history : list day) (r : day) :
  MAX_DAYS <= length history ->
  push_history history r
  = skipn (S (length history) - MAX_DAYS) (history ++ [r]).
Proof.
  intros Hlen. unfold push_history, Js.slice_last.
  rewrite length_app. simpl length.
  replace (length history + 1) with (S (length history)) by lia.
  destruct (Nat.ltb_spec MAX_DAYS (S (length history))) as [_ | Hge];
    [reflexivity | lia].
Qed.

(** Below the cap nothing is evicted. *)
Lemma push_history_short (history : list day) (r : day) :
  length history < MAX_DAYS -> push_history history r = history ++ [r].
Proof.
  intros Hlen. unfold push_history. rewrite length_app. simpl length.
  destruct (Nat.ltb_spec MAX_DAYS (length history + 1)) as [Hlt | _];
    [lia | reflexivity].
Qed.

(** The window never exceeds the cap after an append. *)
Lemma push_history_capped (history : list day) (r : day) :
  length (push_history history r) <= MAX_DAYS.
Proof.
  destruct (Nat.lt_ge_cases (length history) MAX_DAYS) as [Hlt | Hge].
  - rewrite push_history_short by exact Hlt.
    rewrite length_app. simpl. lia.
  - rewrite push_history_unfold by exact Hge.
    rewrite length_skipn, length_app. simpl. unfold MAX_DAYS in *. lia.
Qed.

(** C5.  When the window already holds [MAX_DAYS] records or more,
    appending today's record leaves exactly [MAX_DAYS] records: the newest
    ones, today's last, so the oldest record of the window is evicted.
    When the window held exactly [MAX_DAYS] records, the new oldest record
    is the second-oldest of the window before the append. *)
Theorem push_history_evicts_oldest (history : list day) (r : day) :
  MAX_DAYS <= length history ->
  length (push_history history r) = MAX_DAYS
  /\ push_history history r
     = skipn (S (length history) - MAX_DAYS) (history ++ [r])
  /\ List.last (push_history history r) r = r
  /\ (forall i, push_history history r !! i
                = (history ++ [r]) !! (S (length history) - MAX_DAYS + i))
  /\ (length history = MAX_DAYS ->
      push_history history r !! 0 = history !! 1).
Proof.
  intros Hlen.
  pose proof (push_history_unfold history r Hlen) as Hpush.
  assert (Hlookup : forall i, push_history history r !! i
            = (history ++ [r]) !! (S (length history) - MAX_DAYS + i)).
  { intros i. rewrite Hpush. apply lookup_drop. }
  repeat split.
  - rewrite Hpush, length_skipn, length_app. simpl.
    unfold MAX_DAYS in *. lia.
  - exact Hpush.
  - rewrite Hpush.
    assert (Hsuffix : exists pre, skipn (S (length history) - MAX_DAYS)
                                     (history ++ [r]) = pre ++ [r]).
    { exists (skipn (S (length history) - MAX_DAYS) history).
      rewrite skipn_app.
      replace (S (length history) - MAX_DAYS - length history) with 0
        by (unfold MAX_DAYS in *; lia).
      reflexivity. }
    destruct Hsuffix as [pre ->]. apply last_last.
  - exact Hlookup.
  - intros Heq. rewrite Hlookup, Heq.
    replace (S MAX_DAYS - MAX_DAYS + 0) with 1 by (unfold MAX_DAYS; lia).
    apply lookup_app_l. rewrite Heq. unfold MAX_DAYS. lia.
Qed.

End HistoryWindow.

Section HistoryWindowExamples.
Import Aggregate Samples.

Lemma push_history_evicts_oldest_witness :
  MAX_DAYS <= length full_window
  /\ length (push_history full_window today) = MAX_DAYS
  /\ push_history full_window today !! 0 = full_window !! 1.
Proof.
  split; [vm_compute; lia |].
  pose proof (push_history_evicts_oldest full_window today) as H.
  destruct H as (Hlen & _ & _ & _ & Hold); [vm_compute; lia |].
  split; [exact Hlen | apply Hold; reflexivity].
Defined.

End HistoryWindowExamples.

(** ** The failure streak *)

Section Streak.
Import Aggregate Samples.

(** The loop, entered with [i] records left, adds to its counter the
    failures that lead the entries of those [i] records. *)
Lemma streak_loop_leading (a : string) (history : list day) :
  forall i acc,
    i <= length history ->
    streak_loop a history i acc
    = acc + leading_failures (entries_newest_first a (take i history)).
Proof.
  induction i as [| j IH]; intros acc Hi.
  - simpl. unfold entries_newest_first. simpl. lia.
  - destruct (lookup_lt_is_Some_2 history j) as [d Hd]; [lia |].
    cbn [streak_loop]. rewrite Hd.
    unfold entries_newest_first.
    rewrite (take_S_r _ _ _ Hd), rev_app_distr. cbn [rev app omap list_omap].
    fold (entries_newest_first a (take j history)).
    destruct (find_api a (results d)) as [r |] eqn:Hfind.
    + cbn [leading_failures]. destruct (success r).
      * lia.
      * rewrite IH by lia. lia.
    + apply IH. lia.
Qed.

(** C2, as amended.  The streak of an endpoint is the number of failing
    entries that lead its entries in the window read from newest to
    oldest: a record without an entry for the endpoint is passed over, and
    only a successful entry stops the scan. *)
Theorem streak_skips_missing (a : string) (history : list day) :
  streak a history = leading_failures (entries_newest_first a history).
Proof.
  unfold streak. rewrite streak_loop_leading by lia.
  rewrite firstn_all. reflexivity.
Qed.

(** C2, as stated, fails: the endpoint failed in the older record and has
    no entry in the newer one; the loop passes over the newer record and
    counts the failure, a scan that stops at the missing entry counts
    nothing.  It fails as well when the newest record has an entry, as
    after a run: the loop counts the failures on both sides of the
    record without an entry, the scan only the newest. *)
Lemma streak_does_not_stop_at_missing :
  streak api_a window_with_gap = 1
  /\ streak_stopping_at_missing api_a window_with_gap = 0
  /\ streak api_a window_with_gap
     <> streak_stopping_at_missing api_a window_with_gap
  /\ streak api_a window_with_gap_before_today = 2
  /\ streak_stopping_at_missing api_a window_with_gap_before_today = 1.
Proof.
  split; [reflexivity |]. split; [reflexivity |].
  split; [vm_compute; discriminate |].
  split; reflexivity.
Qed.

(** When every record of the window has an entry for the endpoint the two
    readings agree. *)
Lemma streak_agrees_without_gaps (a : string) (history : list day) :
  Forall (fun d => find_api a (results d) <> None) history ->
  streak a history = streak_stopping_at_missing a history.
Proof.
  intros Hall. unfold streak.
  rewrite streak_loop_leading, firstn_all by lia.
  unfold entries_newest_first, streak_stopping_at_missing. cbn [Nat.add].
  assert (Hrev : Forall (fun d => find_api a (results d) <> None)
                        (rev history)).
  { apply Forall_forall. intros d Hd. rewrite Forall_forall in Hall.
    apply Hall. apply list_elem_of_In. apply list_elem_of_In in Hd.
    apply in_rev. exact Hd. }
  induction Hrev as [| d ds Hd _ IH]; [reflexivity |].
  cbn [omap list_omap scan_stopping_at_missing].
  destruct (find_api a (results d)) as [r |]; [| congruence].
  cbn [leading_failures]. destruct (success r); [reflexivity |].
  rewrite IH. reflexivity.
Qed.

(** The example of the specification. *)
Example streak_ffsf : streak api_a window_ffsf = 1.
Proof. reflexivity. Qed.

End Streak.

(** ** The reliability tier *)

Section Tier.
Import Aggregate Samples.

Lemma success_rate_none (n_ok n_fail : nat) :
  success_rate n_ok n_fail = RateNone <-> n_ok + n_fail = 0.
Proof.
  unfold success_rate.
  destruct (Nat.ltb_spec 0 (n_ok + n_fail)); split; intros; try lia;
    try discriminate; reflexivity.
Qed.

Lemma avg_below_spec (avg : option Js.number) (bound : Z) :
  avg_below avg bound = true
  <-> exists v, avg = Some v /\ Js.number_ltb v bound = true.
Proof.
  destruct avg as [v |]; cbn [avg_below].
  - split.
    + intros Hv. exists v. split; [reflexivity | exact Hv].
    + intros (v' & Heq & Hv). injection Heq as <-. exact Hv.
  - split; [discriminate | intros (v & Heq & _); discriminate].
Qed.

(** On a window of at most [MAX_DAYS] records the rate in tenths is the
    one the script computes in double precision. *)
Lemma success_rate_is_double (n_ok n_fail : nat) :
  n_ok + n_fail <= MAX_DAYS ->
  success_rate_double n_ok n_fail = Some (success_rate n_ok n_fail).
Proof.
  intros Hcap.
  assert (Hall :
    forallb (fun a =>
      forallb (fun b =>
        match success_rate_double a b, success_rate a b with
        | Some RateNone, RateNone => true
        | Some (RatePct t1), RatePct t2 => (t1 =? t2)%Z
        | _, _ => false
        end) (seq 0 (S MAX_DAYS - a))) (seq 0 (S MAX_DAYS)) = true)
    by (vm_compute; reflexivity).
  rewrite forallb_forall in Hall.
  assert (Ha : In n_ok (seq 0 (S MAX_DAYS))) by (apply in_seq; lia).
  specialize (Hall n_ok Ha). rewrite forallb_forall in Hall.
  assert (Hb : In n_fail (seq 0 (S MAX_DAYS - n_ok))) by (apply in_seq; lia).
  specialize (Hall n_fail Hb).
  destruct (success_rate_double n_ok n_fail) as [[| t1] |];
    destruct (success_rate n_ok n_fail) as [| t2]; try discriminate.
  - reflexivity.
  - apply Z.eqb_eq in Hall. subst t2. reflexivity.
Qed.

(** The comparisons of lines 253, 254 and 364, made on the double that
    [parseFloat] gives, are the comparisons on tenths. *)
Lemma thresholds_are_double (t : Z) :
  (0 <= t <= 1000)%Z ->
  PrimFloat.leb (Js.double_of_Z 90) (Js.parseFloat_tenths t) = (900 <=? t)%Z
  /\ PrimFloat.leb (Js.double_of_Z 70) (Js.parseFloat_tenths t)
     = (700 <=? t)%Z.
Proof.
  intros Ht.
  assert (Hall :
    forallb (fun n =>
      let z := Z.of_nat n in
      Bool.eqb (PrimFloat.leb (Js.double_of_Z 90) (Js.parseFloat_tenths z))
               (900 <=? z)%Z
      && Bool.eqb (PrimFloat.leb (Js.double_of_Z 70) (Js.parseFloat_tenths z))
                  (700 <=? z)%Z) (seq 0 1001) = true)
    by (vm_compute; reflexivity).
  rewrite forallb_forall in Hall.
  assert (Hin : In (Z.to_nat t) (seq 0 1001)) by (apply in_seq; lia).
  specialize (Hall (Z.to_nat t) Hin). cbn zeta in Hall.
  rewrite Z2Nat.id in Hall by lia.
  apply andb_true_iff in Hall as [H90 H70].
  apply Bool.eqb_prop in H90. apply Bool.eqb_prop in H70.
  split; assumption.
Qed.

(** Every record adds one sample at most. *)
Lemma count_loop_bound (a : string) (history : list day) :
  c_ok (count_loop a history) + c_fail (count_loop a history)
  <= length history.
Proof.
  unfold count_loop.
  assert (Hgen : forall c,
            c_ok (fold_left (count_day a) history c)
            + c_fail (fold_left (count_day a) history c)
            <= c_ok c + c_fail c + length history).
  { induction history as [| d history IH]; intros c; [simpl; lia |].
    cbn [fold_left length]. specialize (IH (count_day a c d)).
    assert (Hday : c_ok (count_day a c d) + c_fail (count_day a c d)
                   <= S (c_ok c + c_fail c)).
    { unfold count_day. destruct (find_api a (results d)) as [r |]; [| lia].
      destruct (success r); destruct (latencyMs r); simpl; lia. }
    lia. }
  specialize (Hgen (mkCounters 0 0 [])). simpl in Hgen. exact Hgen.
Qed.

(** So the rate [aggregate] gives an endpoint is the one the script
    computes in double precision. *)
Lemma aggregate_rate_is_double (api_site : list (string * site))
    (history : list day) (date kw : string) (todayResults : list result)
    (e : entry) :
  let rp := aggregate api_site history date kw todayResults in
  let s := stats_for (rp_history rp) todayResults e in
  success_rate_double (ok s) (fail s) = Some (successRate s).
Proof.
  cbn zeta. cbn [aggregate rp_history stats_for ok fail successRate].
  apply success_rate_is_double.
  etransitivity; [apply count_loop_bound | apply push_history_capped].
Qed.

(** Lines 250-256 on any window.  With at least one sample the tier is
    one of three: High when the rate is at least 90% and the average
    latency is below 2500 ms, otherwise Medium when the rate is at least
    70% and the average latency is below 5000 ms, otherwise Low (a window
    without any numeric latency has no average and counts as not below
    any bound).  With no sample the guard of line 252 leaves the field as
    it is. *)
Lemma tier_by_samples (history : list day) (todayResults : list result)
    (e : entry) :
  let s := stats_for history todayResults e in
  (ok s + fail s = 0 -> successRate s = RateNone /\ reliable s = SYM_NONE)
  /\ (0 < ok s + fail s ->
      exists t,
        successRate s = RatePct t
        /\ let high := (900 <= t)%Z /\ latency_under s 2500 in
           let medium := (700 <= t)%Z /\ latency_under s 5000 in
           (high -> reliable s = TIER_HIGH)
           /\ (~ high -> medium -> reliable s = TIER_MEDIUM)
           /\ (~ high -> ~ medium -> reliable s = TIER_LOW)).
Proof.
  cbn zeta. unfold latency_under. cbn [stats_for ok fail successRate reliable
                                       latencyAvgMs].
  set (c := count_loop (e_api e) history).
  split.
  - intros Hzero. apply success_rate_none in Hzero. rewrite Hzero.
    split; reflexivity.
  - intros Hpos.
    destruct (success_rate (c_ok c) (c_fail c)) as [| t] eqn:Hrate.
    { apply success_rate_none in Hrate. lia. }
    exists t. split; [reflexivity |].
    unfold reliable_of. cbn [rateNum].
    rewrite <- !avg_below_spec.
    destruct (Z.leb_spec 900 t) as [H9 | H9];
      destruct (Z.leb_spec 700 t) as [H7 | H7];
      destruct (avg_below (latency_avg (c_latencies c)) 2500) eqn:H25;
      destruct (avg_below (latency_avg (c_latencies c)) 5000) eqn:H50;
      cbn [andb]; repeat split; intros; try reflexivity;
      try (exfalso; intuition (try lia; try discriminate; try congruence)).
Qed.

(** The guard of line 252 on a window in which the endpoint has no
    sample, which the main block never builds for a configured
    endpoint: the field keeps the placeholder of line 212. *)
Example no_sample_no_tier :
  let s := stats_for [day_of "2026-01-01" []] [] entry_a in
  ok s + fail s = 0
  /\ successRate s = RateNone
  /\ reliable s = "-"
  /\ reliable s <> TIER_LOW.
Proof.
  repeat split; try reflexivity. vm_compute. discriminate.
Qed.

(** The examples of the specification: 95% at 1200 ms, 80% at 3000 ms,
    50% at any latency. *)
Example tier_high :
  reliable_of "-" (RatePct 950) (Some (Js.Finite 1200)) = TIER_HIGH.
Proof. reflexivity. Qed.

Example tier_medium :
  reliable_of "-" (RatePct 800) (Some (Js.Finite 3000)) = TIER_MEDIUM.
Proof. reflexivity. Qed.

Example tier_low (avg : option Js.number) :
  reliable_of "-" (RatePct 500) avg = TIER_LOW.
Proof. reflexivity. Qed.

End Tier.

(** ** The status symbol and the reliable subset *)

Section ReliableSubset.
Import Aggregate Samples.

Variable history : list day.
Variable todayResults : list result.




End ReliableSubset.

Section DisabledEndpoints.
Import Aggregate Samples.




(** Without distinct addresses the statement fails: [stats] keeps what
    the last entry with an address wrote, here an enabled entry on alert,
    and the disabled entry with the same address is left out with it. *)
Lemma duplicate_address_drops_disabled :
  let rp := aggregate config_duplicate window_27_2 "2026-01-30" "斗罗大陆"
                      [skipped api_a; failed api_a 8000] in
  rp_reliable rp = [].
Proof. vm_compute. reflexivity. Qed.

End DisabledEndpoints.

(** ** The retry loops *)

(** Reads the timeline and the number of turns off a trace that a run
    extended. *)
Ltac read_trace :=
  unfold Retry.timeline, Retry.attempts; rewrite <- ?app_assoc; cbn;
  rewrite ?List.filter_app, ?length_app; cbn.

(** Runs a retry loop on a world whose script is known far enough. *)
Ltac run_world :=
  cbv beta iota zeta delta
      -[Z.add Z.sub Z.mul Z.eqb Z.of_nat Nat.add app String.append
        RETRY_DELAY_MS Retry.classify Retry.status Retry.data
        Retry.first_event Retry.timeline Retry.attempts Retry.total_dt].

Ltac run_loop :=
  run_world;
  repeat match goal with
         | |- context [Retry.first_event ?r] =>
             destruct (Retry.first_event r); run_world
         end.

Section RetryLoops.
Import Js Retry.

Variable encodeURIComponent : string -> option string.

(** With the constants of the script, [safeGet] and [testSearch] sleep
    only between two turns: the timeline of a run is turn 1 alone when
    the first turn returns, and turn 1, a sleep of [RETRY_DELAY_MS],
    turn 2 when it fails; nothing follows the last turn. *)
Lemma retry_timeline_two_turns (url a keyword : string) (w : world) :
  timeline (trace (snd (safeGet url w)))
  = timeline (trace w)
    ++ linear_backoff RETRY_DELAY_MS 1
         (if probe_fails (script w) then 2 else 1)
  /\ timeline (trace (snd (testSearch encodeURIComponent a keyword w)))
     = timeline (trace w)
       ++ linear_backoff RETRY_DELAY_MS 1
            (if search_turn_fails encodeURIComponent keyword (script w)
             then 2 else 1).
Proof.
  destruct w as [t sc tr]. cbn [script trace]. split.
  - unfold safeGet, MAX_RETRY, probe_fails.
    destruct sc as [| [dt1 | dt1 r1] sc]; [| | run_loop; read_trace; easy].
    + run_loop. read_trace. reflexivity.
    + destruct sc as [| [dt2 | dt2 r2] sc]; [| | run_loop; read_trace; easy].
      * run_loop. read_trace. reflexivity.
      * destruct sc as [| [dt3 | dt3 r3] sc];
          [| | run_loop; read_trace; easy].
        -- run_loop. read_trace. reflexivity.
        -- destruct sc as [| [dt4 | dt4 r4] sc]; run_loop; read_trace;
             reflexivity.
  - run_world.
    destruct (encodeURIComponent keyword) as [q |];
      [| run_loop; read_trace; reflexivity].
    destruct sc as [| [dt1 | dt1 r1] sc].
    + run_loop. read_trace. reflexivity.
    + destruct sc as [| [dt2 | dt2 r2] sc]; run_loop; try (read_trace; easy).
      destruct (classify keyword (status r2) (data r2)); read_trace; easy.
    + run_loop.
      destruct (classify keyword (status r1) (data r1)) eqn:Hc1;
        [read_trace; easy |].
      destruct sc as [| [dt2 | dt2 r2] sc]; run_loop; try (read_trace; easy).
      destruct (classify keyword (status r2) (data r2)); read_trace; easy.
Qed.

(** [safeGet] always returns an object, whatever the network does. *)
Lemma safeGet_never_throws (url : string) (w : world) :
  exists p, fst (safeGet url w) = Returned (Some p).
Proof.
  destruct w as [t sc tr].
  destruct sc as [| [dt1 | dt1 r1] sc]; [| | run_loop; eauto].
  - run_loop. eauto.
  - destruct sc as [| [dt2 | dt2 r2] sc]; [| | run_loop; eauto].
    + run_loop. eauto.
    + destruct sc as [| [dt3 | dt3 r3] sc]; [| | run_loop; eauto].
      * run_loop. eauto.
      * destruct sc as [| [dt4 | dt4 r4] sc]; run_loop; eauto.
Qed.

(** [testSearch] always returns a status, whatever the network does and
    whatever the body holds. *)
Lemma testSearch_never_throws (a keyword : string) (w : world) :
  exists s, fst (testSearch encodeURIComponent a keyword w)
            = Returned (Some s).
Proof.
  destruct w as [t sc tr]. run_world.
  destruct (encodeURIComponent keyword) as [q |]; [| run_loop; eauto].
  destruct sc as [| [dt1 | dt1 r1] sc].
  - run_loop. eauto.
  - destruct sc as [| [dt2 | dt2 r2] sc]; run_loop; eauto.
    destruct (classify keyword (status r2) (data r2)); eauto.
  - run_loop.
    destruct (classify keyword (status r1) (data r1)); [eauto |].
    destruct sc as [| [dt2 | dt2 r2] sc]; run_loop; eauto.
    destruct (classify keyword (status r2) (data r2)); eauto.
Qed.

(** Closes the goals of a loop that ran out of turns. *)
Ltac exhausted :=
  run_loop;
  split;
  [ first [ reflexivity
          | do 3 f_equal; unfold total_dt; cbn [fold_right reply_dt]; lia ]
  | read_trace; lia ].

(** C6.  When both requests of every turn reject, [safeGet] returns
    [{ success: false, latencyMs }] after exactly [MAX_RETRY] turns,
    [latencyMs] being the time its last turn took; when every turn of
    [testSearch] ends in its [catch] (the keyword cannot be encoded, the
    request rejects, or reading the body throws), [testSearch] returns
    ["❌"] after exactly [MAX_RETRY] turns.  Neither of them ever
    throws. *)
Theorem retry_exhaustion_returns_failure
    (url a keyword : string) (w1 w2 : world) :
  forallb rejects (take (2 * MAX_RETRY) (script w1)) = true ->
  encodeURIComponent keyword = None
  \/ forallb (search_fails keyword) (take MAX_RETRY (script w2)) = true ->
  (fst (safeGet url w1)
   = Returned
       (Some (mkProbe false
                (total_dt (take 2 (drop (2 * (MAX_RETRY - 1)) (script w1))))))
   /\ attempts (trace (snd (safeGet url w1)))
      = attempts (trace w1) + MAX_RETRY)
  /\ (fst (testSearch encodeURIComponent a keyword w2)
      = Returned (Some SEARCH_FAIL)
      /\ attempts (trace (snd (testSearch encodeURIComponent a keyword w2)))
         = attempts (trace w2) + MAX_RETRY)
  /\ (forall w, fst (safeGet url w) <> Thrown)
  /\ (forall w, fst (testSearch encodeURIComponent a keyword w) <> Thrown).
Proof.
  intros Hprobe Hsearch.
  split; [| split; [| split]].
  - destruct w1 as [t sc tr]. cbn [script trace] in *.
    unfold MAX_RETRY in *. cbn [Nat.mul Nat.add Nat.sub] in *.
    destruct sc as [| [dt1 | dt1 r1] sc];
      [exhausted | | discriminate Hprobe].
    destruct sc as [| [dt2 | dt2 r2] sc];
      [exhausted | | discriminate Hprobe].
    destruct sc as [| [dt3 | dt3 r3] sc];
      [exhausted | | discriminate Hprobe].
    destruct sc as [| [dt4 | dt4 r4] sc];
      [exhausted | exhausted | discriminate Hprobe].
  - destruct w2 as [t sc tr]. cbn [script trace] in *.
    unfold MAX_RETRY in *. run_world.
    destruct (encodeURIComponent keyword) as [q |]; [| exhausted].
    destruct Hsearch as [Hnone | Hsearch]; [discriminate Hnone |].
    destruct sc as [| r1 sc]; [exhausted |].
    cbn [take forallb] in Hsearch.
    apply andb_true_iff in Hsearch as [Hr1 Hsearch].
    destruct r1 as [dt1 | dt1 r1]; cbn [search_fails] in Hr1.
    + destruct sc as [| r2 sc]; [exhausted |].
      cbn [take forallb] in Hsearch.
      apply andb_true_iff in Hsearch as [Hr2 _].
      destruct r2 as [dt2 | dt2 r2]; cbn [search_fails] in Hr2;
        [exhausted |].
      run_loop.
      destruct (classify keyword (status r2) (data r2));
        [discriminate Hr2 |].
      split; [reflexivity | read_trace; lia].
    + run_loop.
      destruct (classify keyword (status r1) (data r1));
        [discriminate Hr1 |].
      destruct sc as [| r2 sc]; [exhausted |].
      cbn [take forallb] in Hsearch.
      apply andb_true_iff in Hsearch as [Hr2 _].
      destruct r2 as [dt2 | dt2 r2]; cbn [search_fails] in Hr2;
        [exhausted |].
      run_loop.
      destruct (classify keyword (status r2) (data r2));
        [discriminate Hr2 |].
      split; [reflexivity | read_trace; lia].
  - intros w Hthrown. destruct (safeGet_never_throws url w) as [p Hp].
    congruence.
  - intros w Hthrown.
    destruct (testSearch_never_throws a keyword w) as [s Hs]. congruence.
Qed.

(** *** The loops for any number of turns *)









(** *** The loops when every request is refused *)













End RetryLoops.

Section RetryExamples.
Import Js Retry Samples.

Lemma retry_exhaustion_returns_failure_witness :
  forallb rejects (take (2 * MAX_RETRY) (script world_refusing)) = true
  /\ fst (safeGet api_a world_refusing)
     = Returned (Some (mkProbe false 8035))
  /\ attempts (trace (snd (safeGet api_a world_refusing))) = MAX_RETRY
  /\ fst (testSearch encode_plain api_a "kw" world_refusing)
     = Returned (Some SEARCH_FAIL).
Proof.
  split; [reflexivity |].
  destruct (retry_exhaustion_returns_failure
              encode_plain api_a api_a "kw" world_refusing world_refusing)
    as ((Hprobe & Hturns) & (Hsearch & _) & _);
    [reflexivity | right; reflexivity |].
  split; [exact Hprobe | split; [exact Hturns | exact Hsearch]].
Defined.



(** The two loops differ in their delay expression: [safeGet] multiplies
    by the turn, [testSearch] does not.  With three turns the difference
    shows; with the two turns of [MAX_RETRY] the only sleep follows
    turn 1 and both expressions give [RETRY_DELAY_MS]. *)
Example safeGet_loop_three_turns :
  timeline (trace (snd (safeGet_loop 3 500 3 1 api_a (mkWorld 0 [] []))))
  = [Attempt 1; Slept 500; Attempt 2; Slept 1000; Attempt 3].
Proof. reflexivity. Qed.

Example testSearch_loop_three_turns :
  timeline (trace (snd (testSearch_loop encode_plain 3 500 3 1 api_a "kw"
                                        (mkWorld 0 [] []))))
  = [Attempt 1; Slept 500; Attempt 2; Slept 500; Attempt 3].
Proof. reflexivity. Qed.

(** A turn that fails once and then succeeds: one sleep of
    [RETRY_DELAY_MS * 1], and the result of the second turn. *)
Example safeGet_second_turn :
  let w := mkWorld 0 [Rejects 40; Rejects 8000;
                      Resolves 90 (mkResponse 200 JNull (EndOrError 0))] [] in
  fst (safeGet api_a w) = Returned (Some (mkProbe true 90))
  /\ timeline (trace (snd (safeGet api_a w)))
     = [Attempt 1; Slept (RETRY_DELAY_MS * 1); Attempt 2].
Proof. split; reflexivity. Qed.

(** A HEAD answered with a 2xx status other than 200 is a failed probe
    that is neither followed by the GET nor retried. *)
Example safeGet_head_204 :
  let w := mkWorld 0 [Resolves 30 (mkResponse 204 JNull (EndOrError 0))] [] in
  fst (safeGet api_a w) = Returned (Some (mkProbe false 30))
  /\ trace (snd (safeGet api_a w)) = [Attempt 1; Requested HEAD api_a].
Proof. split; reflexivity. Qed.

End RetryExamples.

(** ** The search test *)

Section SearchTest.
Import Js Retry Samples.

Variable encodeURIComponent : string -> option string.

Lemma prefix_spec (k s : string) :
  String.prefix k s = true <-> exists post, s = k +:+ post.
Proof.
  revert s. induction k as [| c k IH]; intros s.
  - split; [intros _; exists s; reflexivity | destruct s; reflexivity].
  - destruct s as [| c' s]; simpl.
    + split; [discriminate | intros [post Hpost]; discriminate].
    + destruct (Ascii.ascii_dec c c') as [-> | Hne].
      * rewrite IH. split; intros [post Hpost]; exists post.
        -- rewrite Hpost. reflexivity.
        -- injection Hpost as ->. reflexivity.
      * split; [discriminate |].
        intros [post Hpost]. injection Hpost as -> _. congruence.
Qed.

(** [includes] decides the occurrence of the keyword. *)
Lemma includes_spec (s k : string) :
  includes s k = true <-> substring_of k s.
Proof.
  unfold substring_of. induction s as [| c s IH].
  - cbn [includes]. destruct (String.prefix k "") eqn:Hpre.
    + apply prefix_spec in Hpre as [post Hpost].
      split; [intros _; exists "", post; exact Hpost | reflexivity].
    + split; [discriminate |].
      intros (pre & post & Heq).
      destruct pre; [| discriminate].
      assert (String.prefix k "" = true) as Habs
        by (apply prefix_spec; exists post; exact Heq).
      congruence.
  - cbn [includes]. destruct (String.prefix k (String c s)) eqn:Hpre.
    + apply prefix_spec in Hpre as [post Hpost].
      split; [intros _; exists "", post; exact Hpost | reflexivity].
    + rewrite IH. split.
      * intros (pre & post & ->). exists (String c pre), post. reflexivity.
      * intros (pre & post & Heq). destruct pre as [| c' pre].
        -- assert (String.prefix k (String c s) = true) as Habs
             by (apply prefix_spec; exists post; exact Heq).
           congruence.
        -- injection Heq as _ ->. exists pre, post. reflexivity.
Qed.

Lemma classify_fail (keyword : string) (st : Z) (body : json) :
  st <> 200%Z \/ structured body = false ->
  classify keyword st body = Returned SEARCH_FAIL.
Proof.
  unfold classify, structured. intros [Hst | Hbody].
  - apply Z.eqb_neq in Hst. rewrite Hst. reflexivity.
  - apply andb_false_iff in Hbody as [-> | ->];
      rewrite ?orb_true_r; reflexivity.
Qed.

Lemma classify_ok_unfold (keyword : string) (body : json) :
  structured body = true ->
  (negb (200 =? 200)%Z || negb (truthy body) || negb (typeof_object body))
  = false.
Proof.
  unfold structured. intros [-> ->]%andb_true_iff. reflexivity.
Qed.

Lemma classify_list (keyword : string) (body : json) (items : list json) :
  structured body = true ->
  get body "list" = Some (JArr items) ->
  classify keyword 200 body
  = Returned
      match items with
      | [] => SEARCH_NO_RESULTS
      | _ => if existsb (fun item => includes (stringify item) keyword) items
             then SEARCH_PASS else SEARCH_MISMATCH
      end.
Proof.
  intros Hbody Hlist. unfold classify.
  rewrite (classify_ok_unfold keyword body Hbody), Hlist. cbn [truthy].
  destruct items; reflexivity.
Qed.

Lemma classify_missing_list (keyword : string) (body : json) :
  structured body = true ->
  get body "list" = None ->
  classify keyword 200 body = Returned SEARCH_NO_RESULTS.
Proof.
  intros Hbody Hlist. unfold classify.
  rewrite (classify_ok_unfold keyword body Hbody), Hlist. reflexivity.
Qed.

(** The status [testSearch] returns is the classification of the first
    response it receives, when that classification does not throw. *)
Lemma testSearch_first_response (a keyword q : string) (w : world)
    (dts : list Z) (dt : Z) (resp : response) (rest : list reply)
    (s : string) :
  encodeURIComponent keyword = Some q ->
  length dts < MAX_RETRY ->
  script w = map Rejects dts ++ Resolves dt resp :: rest ->
  classify keyword (status resp) (data resp) = Returned s ->
  fst (testSearch encodeURIComponent a keyword w) = Returned (Some s).
Proof.
  intros Henc Hlen Hscript Hclass.
  destruct w as [t sc tr]. cbn [script] in Hscript. subst sc.
  unfold MAX_RETRY in Hlen.
  destruct dts as [| d1 [| d2 dts]]; [| | simpl in Hlen; lia].
  - cbn [map app]. run_world. rewrite Henc. run_world. rewrite Hclass.
    reflexivity.
  - cbn [map app]. run_world. rewrite Henc. run_world. rewrite Hclass.
    reflexivity.
Qed.

End SearchTest.

Section SearchClassification.
Import Js Retry Samples.

Variable encodeURIComponent : string -> option string.

(** C7.  On the first response [testSearch] receives, within its turns:
    a status other than 200 or a body that is not a structured value
    gives ["❌"]; with status 200 and a structured body whose [list] is an
    array, an empty array gives ["无结果"], an array with an item whose
    [JSON.stringify] text contains the keyword gives ["✅"], and any other
    array gives ["不匹配"]. *)
Theorem testSearch_classifies (a keyword q : string) (w : world)
    (dts : list Z) (dt : Z) (resp : response) (rest : list reply) :
  encodeURIComponent keyword = Some q ->
  length dts < MAX_RETRY ->
  script w = map Rejects dts ++ Resolves dt resp :: rest ->
  let verdict := fst (testSearch encodeURIComponent a keyword w) in
  (status resp <> 200%Z \/ structured (data resp) = false ->
   verdict = Returned (Some SEARCH_FAIL))
  /\ (forall items,
        status resp = 200%Z ->
        structured (data resp) = true ->
        get (data resp) "list" = Some (JArr items) ->
        (items = [] -> verdict = Returned (Some SEARCH_NO_RESULTS))
        /\ ((exists item,
               In item items /\ substring_of keyword (stringify item)) ->
            verdict = Returned (Some SEARCH_PASS))
        /\ (items <> [] ->
            (forall item,
               In item items -> ~ substring_of keyword (stringify item)) ->
            verdict = Returned (Some SEARCH_MISMATCH))).
Proof.
  intros Henc Hlen Hscript verdict. subst verdict.
  pose proof (testSearch_first_response encodeURIComponent a keyword q w
                dts dt resp rest) as Hfirst.
  split.
  - intros Hbad. apply Hfirst; try assumption.
    apply classify_fail. exact Hbad.
  - intros items Hst Hbody Hlist.
    pose proof (classify_list keyword (data resp) items Hbody Hlist)
      as Hclass.
    rewrite <- Hst in Hclass.
    split; [| split].
    + intros ->. apply Hfirst; assumption.
    + intros (item & Hin & Hsub).
      apply Hfirst; try assumption. rewrite Hclass.
      assert (Hex : existsb (fun item => includes (stringify item) keyword)
                            items = true).
      { apply existsb_exists. exists item.
        split; [exact Hin | apply includes_spec; exact Hsub]. }
      rewrite Hex. destruct items; [destruct Hin | reflexivity].
    + intros Hne Hnone.
      apply Hfirst; try assumption. rewrite Hclass.
      assert (Hex : existsb (fun item => includes (stringify item) keyword)
                            items = false).
      { apply not_true_is_false. intros Hex.
        apply existsb_exists in Hex as (item & Hin & Hinc).
        apply (Hnone item Hin). apply includes_spec. exact Hinc. }
      rewrite Hex. destruct items; [congruence | reflexivity].
Qed.

(** C10.  A response with status 200 and a structured body without a
    [list] field is classified ["无结果"], as if the list were empty. *)
Theorem testSearch_missing_list_is_no_results (a keyword q : string)
    (w : world) (dts : list Z) (dt : Z) (resp : response)
    (rest : list reply) :
  encodeURIComponent keyword = Some q ->
  length dts < MAX_RETRY ->
  script w = map Rejects dts ++ Resolves dt resp :: rest ->
  status resp = 200%Z ->
  structured (data resp) = true ->
  get (data resp) "list" = None ->
  fst (testSearch encodeURIComponent a keyword w)
  = Returned (Some SEARCH_NO_RESULTS).
Proof.
  intros Henc Hlen Hscript Hst Hbody Hlist.
  apply (testSearch_first_response encodeURIComponent a keyword q w
           dts dt resp rest); try assumption.
  rewrite Hst. apply classify_missing_list; assumption.
Qed.

End SearchClassification.

Section SearchExamples.
Import Js Retry Samples.

Lemma testSearch_classifies_witness :
  encode_plain "斗罗大陆" = Some "斗罗大陆"
  /\ length (@nil Z) < MAX_RETRY
  /\ fst (testSearch encode_plain api_a "斗罗大陆"
                     (world_answering 200 body_match))
     = Returned (Some SEARCH_PASS).
Proof.
  split; [reflexivity | split; [unfold MAX_RETRY; simpl; lia |]].
  destruct (testSearch_classifies
              encode_plain api_a "斗罗大陆" "斗罗大陆"
              (world_answering 200 body_match) [] 120
              (mkResponse 200 body_match (EndOrError 0)) [])
    as [_ Hlist];
    [reflexivity | unfold MAX_RETRY; simpl; lia | reflexivity |].
  destruct (Hlist [JObj [("title", JStr "斗罗大陆")]])
    as (_ & Hpass & _); [reflexivity | reflexivity | reflexivity |].
  apply Hpass.
  exists (JObj [("title", JStr "斗罗大陆")]). split; [left; reflexivity |].
  apply includes_spec. vm_compute. reflexivity.
Defined.

Lemma testSearch_missing_list_is_no_results_witness :
  get body_no_list "list" = None
  /\ fst (testSearch encode_plain api_a "斗罗大陆"
                     (world_answering 200 body_no_list))
     = Returned (Some SEARCH_NO_RESULTS).
Proof.
  split; [reflexivity |].
  apply (testSearch_missing_list_is_no_results
           encode_plain api_a "斗罗大陆" "斗罗大陆"
           (world_answering 200 body_no_list) [] 120
           (mkResponse 200 body_no_list (EndOrError 0)) []);
    try reflexivity.
  unfold MAX_RETRY. simpl. lia.
Defined.

(** The examples of the specification. *)
Example search_pass :
  fst (testSearch encode_plain api_a "斗罗大陆"
                  (world_answering 200 body_match))
  = Returned (Some "✅").
Proof. vm_compute. reflexivity. Qed.

Example search_no_results :
  fst (testSearch encode_plain api_a "斗罗大陆"
                  (world_answering 200 body_empty))
  = Returned (Some "无结果").
Proof. vm_compute. reflexivity. Qed.

Example search_mismatch :
  fst (testSearch encode_plain api_a "斗罗大陆"
                  (world_answering 200 body_other))
  = Returned (Some "不匹配").
Proof. vm_compute. reflexivity. Qed.

Example search_not_json :
  fst (testSearch encode_plain api_a "斗罗大陆"
                  (world_answering 200 body_html))
  = Returned (Some "❌").
Proof. vm_compute. reflexivity. Qed.

(** A [list] that is a string makes [list.some] throw in both turns. *)
Example search_list_is_text :
  fst (testSearch encode_plain api_a "斗罗大陆"
         (mkWorld 0 [answer 200 (JObj [("list", JStr "斗罗大陆")]);
                     answer 200 (JObj [("list", JStr "斗罗大陆")])] []))
  = Returned (Some "❌").
Proof. vm_compute. reflexivity. Qed.

End SearchExamples.

(** ** The bounded scheduler *)

Section ArrayWrites.

Context {A : Type}.

Lemma array_set_lookup_eq (a : list (option A)) (i : nat) (x : A) :
  Js.array_set a i x !! i = Some (Some x).
Proof.
  unfold Js.array_set. destruct (Nat.ltb_spec i (length a)) as [Hlt | Hge].
  - apply list_lookup_insert_eq. exact Hlt.
  - rewrite lookup_app_r by exact Hge.
    rewrite lookup_app_r by (rewrite repeat_length; lia).
    rewrite repeat_length.
    replace (i - length a - (i - length a)) with 0 by lia. reflexivity.
Qed.

Lemma array_set_lookup_ne (a : list (option A)) (i j : nat) (x : A)
    (y : option A) :
  i <> j -> a !! j = Some y -> Js.array_set a i x !! j = Some y.
Proof.
  intros Hne Hj. unfold Js.array_set.
  destruct (Nat.ltb_spec i (length a)) as [Hlt | Hge].
  - rewrite list_lookup_insert_ne by exact Hne. exact Hj.
  - apply lookup_app_l_Some. exact Hj.
Qed.

Lemma array_set_length (a : list (option A)) (i : nat) (x : A) :
  length (Js.array_set a i x) = Nat.max (length a) (S i).
Proof.
  unfold Js.array_set. destruct (Nat.ltb_spec i (length a)) as [Hlt | Hge].
  - rewrite length_insert. lia.
  - rewrite !length_app, repeat_length. simpl. lia.
Qed.

End ArrayWrites.

Section IndexLists.
Import Queue.

Lemma mem_index_In (i : nat) (l : list nat) :
  mem_index i l = true <-> In i l.
Proof.
  unfold mem_index. rewrite existsb_exists. split.
  - intros (j & Hin & Heq). apply Nat.eqb_eq in Heq. subst j. exact Hin.
  - intros Hin. exists i. split; [exact Hin | apply Nat.eqb_refl].
Qed.

Lemma remove_index_In (i j : nat) (l : list nat) :
  In j (remove_index i l) <-> In j l /\ j <> i.
Proof.
  unfold remove_index. rewrite filter_In, negb_true_iff, Nat.eqb_neq.
  reflexivity.
Qed.

Lemma remove_index_absent (i : nat) (l : list nat) :
  ~ In i l -> remove_index i l = l.
Proof.
  induction l as [| j l IH]; intros Hnot; [reflexivity |].
  cbn [remove_index List.filter].
  destruct (Nat.eqb_spec j i) as [-> | Hne].
  - exfalso. apply Hnot. left. reflexivity.
  - cbn [negb]. f_equal. apply IH. intros Hin. apply Hnot. right. exact Hin.
Qed.

Lemma remove_index_length (i : nat) (l : list nat) :
  List.NoDup l -> In i l -> S (length (remove_index i l)) = length l.
Proof.
  induction l as [| j l IH]; intros Hnodup Hin; [destruct Hin |].
  apply List.NoDup_cons_iff in Hnodup as [Hfresh Hnodup].
  cbn [remove_index List.filter].
  destruct (Nat.eqb_spec j i) as [-> | Hne]; cbn [negb length].
  - fold (remove_index i l). rewrite remove_index_absent by exact Hfresh.
    reflexivity.
  - fold (remove_index i l). f_equal. apply IH; [exact Hnodup |].
    destruct Hin as [Heq | Hin]; [congruence | exact Hin].
Qed.

Lemma remove_index_NoDup (i : nat) (l : list nat) :
  List.NoDup l -> List.NoDup (remove_index i l).
Proof. intros Hnodup. apply List.NoDup_filter. exact Hnodup. Qed.

End IndexLists.

Section Scheduler.
Import Queue.

Context {V E : Type}.
Variable tasks : list (settlement V E).
Variable limit : nat.

Local Abbreviation invariant := (invariant tasks limit).
Local Abbreviation step := (step tasks limit).
Local Abbreviation exec := (exec tasks limit).
Local Abbreviation enabled := (enabled tasks limit).
Local Abbreviation loop_condition := (loop_condition tasks limit).

Lemma loop_condition_true (s : state V E) :
  loop_condition s = true <-> active s < limit /\ index s < length tasks.
Proof.
  unfold Queue.loop_condition.
  rewrite andb_true_iff, !Nat.ltb_lt. reflexivity.
Qed.

Lemma loop_condition_false (s : state V E) :
  loop_condition s = false <-> limit <= active s \/ length tasks <= index s.
Proof.
  unfold Queue.loop_condition.
  rewrite andb_false_iff, !Nat.ltb_ge. reflexivity.
Qed.

Lemma init_invariant : invariant init.
Proof.
  constructor; cbn; try lia; try discriminate; try tauto;
    try (intros; lia); constructor.
Qed.

(** One turn of the loop keeps the invariant. *)
Lemma admit_invariant (s : state V E) :
  invariant s -> pc s = InNext -> loop_condition s = true ->
  invariant (mkState (S (index s)) (S (active s)) (results s)
                     (running s ++ [index s]) (settled s)
                     InNext (resolved s)).
Proof.
  intros [Hact Hlim Hidx Hstart Hndr Hnds Hdis Hwr Hlen Hres Hidle] Hpc Hcond.
  apply loop_condition_true in Hcond as [Hroom Hmore].
  constructor; cbn [index active results running settled pc resolved].
  - rewrite length_app. simpl. lia.
  - lia.
  - lia.
  - intros i [Hin | Hin].
    + apply in_app_or in Hin as [Hin | [<- | []]]; [| lia].
      specialize (Hstart i (or_introl Hin)). lia.
    + specialize (Hstart i (or_intror Hin)). lia.
  - apply List.NoDup_app; [exact Hndr | repeat constructor; intros [] |].
    intros i Hin [Heq | []]. specialize (Hstart i (or_introl Hin)). lia.
  - exact Hnds.
  - intros i Hin Hset. apply in_app_or in Hin as [Hin | [<- | []]].
    + exact (Hdis i Hin Hset).
    + specialize (Hstart (index s) (or_intror Hset)). lia.
  - intros i t Ht Hi Hnot. apply (Hwr i t Ht).
    + destruct (Nat.eq_dec i (index s)) as [-> | Hne]; [| lia].
      exfalso. apply Hnot. apply in_or_app. right. left. reflexivity.
    + intros Hin. apply Hnot. apply in_or_app. left. exact Hin.
  - lia.
  - intros Hr. destruct (Hres Hr) as [Hidle' _]. congruence.
  - discriminate.
Qed.

(** Leaving the loop keeps the invariant. *)
Lemma leave_invariant (s : state V E) :
  invariant s -> pc s = InNext -> loop_condition s = false ->
  invariant (mkState (index s) (active s) (results s)
                     (running s) (settled s) Idle
                     (resolved s
                      || ((length tasks <=? index s) && (active s =? 0)))).
Proof.
  intros [Hact Hlim Hidx Hstart Hndr Hnds Hdis Hwr Hlen Hres Hidle] Hpc Hcond.
  apply loop_condition_false in Hcond.
  constructor; cbn [index active results running settled pc resolved];
    try assumption.
  - intros Hr. apply orb_true_iff in Hr as [Hr | Hr].
    + destruct (Hres Hr) as [Hidle' _]. congruence.
    + apply andb_true_iff in Hr as [Hall Hnone].
      apply Nat.leb_le in Hall. apply Nat.eqb_eq in Hnone.
      repeat split; [lia | exact Hnone].
  - intros Hpos _.
    destruct (Nat.eq_dec (active s) 0) as [Hzero | Hnz]; [left | right; lia].
    apply orb_true_iff. right. apply andb_true_iff.
    split; [apply Nat.leb_le; lia | apply Nat.eqb_eq; exact Hzero].
Qed.

(** Writing a result keeps the invariant. *)
Lemma settle_invariant (s : state V E) (i : nat) (t : settlement V E) :
  invariant s -> pc s = Idle -> In i (running s) -> tasks !! i = Some t ->
  invariant (mkState (index s) (active s)
                     (Js.array_set (results s) i (capture t))
                     (remove_index i (running s)) (settled s ++ [i])
                     Idle (resolved s)).
Proof.
  intros [Hact Hlim Hidx Hstart Hndr Hnds Hdis Hwr Hlen Hres Hidle]
         Hpc Hin Ht.
  pose proof (remove_index_length i (running s) Hndr Hin) as Hcount.
  pose proof (Hstart i (or_introl Hin)) as Hi.
  constructor; cbn [index active results running settled pc resolved];
    try assumption.
  - rewrite length_app. simpl. lia.
  - intros j [Hj | Hj].
    + apply remove_index_In in Hj as [Hj _]. exact (Hstart j (or_introl Hj)).
    + apply in_app_or in Hj as [Hj | [<- | []]]; [| exact Hi].
      exact (Hstart j (or_intror Hj)).
  - apply remove_index_NoDup. exact Hndr.
  - apply List.NoDup_app; [exact Hnds | repeat constructor; intros [] |].
    intros j Hj [Heq | []]. subst j. exact (Hdis i Hin Hj).
  - intros j Hj Hset. apply remove_index_In in Hj as [Hj Hne].
    apply in_app_or in Hset as [Hset | [Heq | []]]; [| congruence].
    exact (Hdis j Hj Hset).
  - intros j t' Ht' Hj Hnot.
    destruct (Nat.eq_dec i j) as [<- | Hne].
    + rewrite array_set_lookup_eq. congruence.
    + apply array_set_lookup_ne; [exact Hne |].
      apply (Hwr j t' Ht' Hj). intros Hrun. apply Hnot.
      apply remove_index_In. split; [exact Hrun | congruence].
  - rewrite array_set_length. lia.
  - intros Hr. destruct (Hres Hr) as (_ & _ & Hzero).
    destruct (running s); [destruct Hin | simpl in Hact; lia].
  - intros Hpos _. destruct (Hidle Hpos Hpc) as [Hr | Hr]; [left | right];
      exact Hr.
Qed.

(** The [finally] callback keeps the invariant, up to the call of
    [next]. *)
Lemma finalize_invariant (s : state V E) (i : nat) :
  invariant s -> pc s = Idle -> In i (settled s) ->
  invariant (mkState (index s) (active s - 1) (results s)
                     (running s) (remove_index i (settled s))
                     InNext (resolved s)).
Proof.
  intros [Hact Hlim Hidx Hstart Hndr Hnds Hdis Hwr Hlen Hres Hidle] Hpc Hin.
  pose proof (remove_index_length i (settled s) Hnds Hin) as Hcount.
  constructor; cbn [index active results running settled pc resolved];
    try assumption.
  - lia.
  - lia.
  - intros j [Hj | Hj].
    + exact (Hstart j (or_introl Hj)).
    + apply remove_index_In in Hj as [Hj _]. exact (Hstart j (or_intror Hj)).
  - apply remove_index_NoDup. exact Hnds.
  - intros j Hj Hset. apply remove_index_In in Hset as [Hset _].
    exact (Hdis j Hj Hset).
  - intros Hr. destruct (Hres Hr) as (_ & _ & Hzero).
    destruct (settled s); [destruct Hin | simpl in Hact; lia].
  - discriminate.
Qed.

(** The cases of a step. *)
Lemma step_cases (e : event) (s s' : state V E) :
  step e s = Some s' ->
  match e with
  | Admit =>
      pc s = InNext /\ loop_condition s = true
      /\ s' = mkState (S (index s)) (S (active s)) (results s)
                      (running s ++ [index s]) (settled s)
                      InNext (resolved s)
  | Leave =>
      pc s = InNext /\ loop_condition s = false
      /\ s' = mkState (index s) (active s) (results s)
                      (running s) (settled s) Idle
                      (resolved s
                       || ((length tasks <=? index s) && (active s =? 0)))
  | Settle i =>
      pc s = Idle /\ In i (running s)
      /\ exists t, tasks !! i = Some t
                   /\ s' = mkState (index s) (active s)
                                   (Js.array_set (results s) i (capture t))
                                   (remove_index i (running s))
                                   (settled s ++ [i])
                                   Idle (resolved s)
  | Finalize i =>
      pc s = Idle /\ In i (settled s)
      /\ s' = mkState (index s) (active s - 1) (results s)
                      (running s) (remove_index i (settled s))
                      InNext (resolved s)
  end.
Proof.
  unfold Queue.step.
  destruct e as [| | i | i]; destruct (pc s) eqn:Hpc; try discriminate.
  - destruct (loop_condition s) eqn:Hcond; [| discriminate].
    intros [= <-]. auto.
  - destruct (loop_condition s) eqn:Hcond; [discriminate |].
    intros [= <-]. auto.
  - destruct (mem_index i (running s)) eqn:Hmem; [| discriminate].
    destruct (tasks !! i) as [t |] eqn:Ht; [| discriminate].
    intros [= <-]. apply mem_index_In in Hmem. eauto.
  - destruct (mem_index i (settled s)) eqn:Hmem; [| discriminate].
    intros [= <-]. apply mem_index_In in Hmem. auto.
Qed.

Lemma step_invariant (e : event) (s s' : state V E) :
  invariant s -> step e s = Some s' -> invariant s'.
Proof.
  intros Hinv Hstep. apply step_cases in Hstep.
  destruct e as [| | i | i].
  - destruct Hstep as (Hpc & Hcond & ->). apply admit_invariant; assumption.
  - destruct Hstep as (Hpc & Hcond & ->). apply leave_invariant; assumption.
  - destruct Hstep as (Hpc & Hin & t & Ht & ->).
    apply settle_invariant; assumption.
  - destruct Hstep as (Hpc & Hin & ->). apply finalize_invariant; assumption.
Qed.

Lemma exec_invariant (es : list event) :
  forall s s' : state V E,
    invariant s -> exec es s = Some s' -> invariant s'.
Proof.
  induction es as [| e es IH]; intros s s' Hinv Hexec.
  - injection Hexec as <-. exact Hinv.
  - cbn [Queue.exec] in Hexec.
    destruct (step e s) as [s1 |] eqn:Hstep; [| discriminate].
    apply (IH s1 s'); [| exact Hexec].
    apply (step_invariant e s s1); assumption.
Qed.

(** Every step runs one of the callbacks that were still to run. *)
Lemma step_weight (e : event) (s s' : state V E) :
  invariant s -> step e s = Some s' -> S (weight tasks s') = weight tasks s.
Proof.
  intros [Hact Hlim Hidx Hstart Hndr Hnds Hdis Hwr Hlen Hres Hidle] Hstep.
  apply step_cases in Hstep. unfold weight.
  destruct e as [| | i | i].
  - destruct Hstep as (Hpc & Hcond & ->).
    apply loop_condition_true in Hcond as [_ Hmore].
    cbn [index running settled pc]. rewrite Hpc, length_app. simpl. lia.
  - destruct Hstep as (Hpc & _ & ->).
    cbn [index running settled pc]. rewrite Hpc. lia.
  - destruct Hstep as (Hpc & Hin & t & _ & ->).
    pose proof (remove_index_length i (running s) Hndr Hin).
    cbn [index running settled pc]. rewrite Hpc, length_app. simpl. lia.
  - destruct Hstep as (Hpc & Hin & ->).
    pose proof (remove_index_length i (settled s) Hnds Hin).
    cbn [index running settled pc]. rewrite Hpc. lia.
Qed.

(** Every step a state allows can be taken. *)
Lemma enabled_steps (e : event) (s : state V E) :
  invariant s -> In e (enabled s) -> exists s', step e s = Some s'.
Proof.
  intros Hinv Hin. unfold Queue.enabled in Hin. unfold Queue.step.
  destruct (pc s) eqn:Hpc.
  - destruct (loop_condition s) eqn:Hcond; destruct Hin as [<- | []];
      cbn iota; eauto.
  - apply in_app_or in Hin as [Hin | Hin];
      apply in_map_iff in Hin as (i & <- & Hi).
    + assert (Hmem : mem_index i (running s) = true)
        by (apply mem_index_In; exact Hi).
      destruct (lookup_lt_is_Some_2 tasks i) as [t Ht].
      { pose proof (inv_started _ _ _ Hinv i (or_introl Hi)).
        pose proof (inv_index _ _ _ Hinv). lia. }
      cbn iota. rewrite Hmem, Ht. eauto.
    + assert (Hmem : mem_index i (settled s) = true)
        by (apply mem_index_In; exact Hi).
      cbn iota. rewrite Hmem. eauto.
Qed.

(** With room for one task at least, a run that is not over can go on. *)
Lemma progress (s : state V E) :
  1 <= limit -> invariant s -> resolved s = false -> enabled s <> [].
Proof.
  intros Hpos Hinv Hres. unfold Queue.enabled.
  destruct (pc s) eqn:Hpc.
  - destruct (loop_condition s); discriminate.
  - destruct (inv_idle _ _ _ Hinv Hpos Hpc) as [Hr | Hact]; [congruence |].
    rewrite (inv_active _ _ _ Hinv) in Hact.
    destruct (running s); [| discriminate].
    destruct (settled s); [simpl in Hact; lia | discriminate].
Qed.

(** When the promise is resolved, every slot holds what its task
    gave. *)
Lemma resolved_results (s : state V E) :
  invariant s -> resolved s = true -> results s = expected tasks.
Proof.
  intros Hinv Hres.
  destruct (inv_resolved _ _ _ Hinv Hres) as (_ & Hidx & Hzero).
  pose proof (inv_active _ _ _ Hinv) as Hact.
  assert (Hrun : running s = [])
    by (destruct (running s); [reflexivity | simpl in Hact; lia]).
  apply list_eq. intros i. unfold expected. rewrite list_lookup_fmap.
  destruct (tasks !! i) as [t |] eqn:Ht; cbn [fmap option_fmap option_map].
  - apply (inv_written _ _ _ Hinv i t Ht).
    + apply lookup_lt_Some in Ht. lia.
    + rewrite Hrun. intros [].
  - apply lookup_ge_None. apply lookup_ge_None in Ht.
    pose proof (inv_length _ _ _ Hinv). lia.
Qed.

(** Once the promise is resolved no callback is left to run: the array
    it was resolved with does not change any more. *)
Lemma resolved_is_final (s : state V E) (e : event) :
  invariant s -> resolved s = true -> step e s = None.
Proof.
  intros Hinv Hres.
  destruct (inv_resolved _ _ _ Hinv Hres) as (Hpc & _ & Hzero).
  pose proof (inv_active _ _ _ Hinv) as Hact.
  assert (Hrun : running s = [])
    by (destruct (running s); [reflexivity | simpl in Hact; lia]).
  assert (Hset : settled s = [])
    by (destruct (settled s); [reflexivity |
        rewrite length_cons in Hact; lia]).
  unfold Queue.step. rewrite Hpc, Hrun, Hset.
  destruct e; reflexivity.
Qed.

(** With room for one task at least, the promise is resolved whatever
    order the callbacks run in. *)
Lemma run_returns (order : state V E -> nat) :
  1 <= limit ->
  forall fuel s,
    invariant s -> weight tasks s <= fuel ->
    run tasks limit order fuel s = Some (expected tasks).
Proof.
  intros Hpos. induction fuel as [| fuel IH]; intros s Hinv Hfuel.
  - assert (Hres : resolved s = true).
    { unfold weight in Hfuel.
      destruct (pc s) eqn:Hpc; [lia |].
      destruct (inv_idle _ _ _ Hinv Hpos Hpc) as [Hr | Hact]; [exact Hr |].
      rewrite (inv_active _ _ _ Hinv) in Hact. lia. }
    cbn [run]. rewrite Hres. f_equal. apply resolved_results; assumption.
  - cbn [run]. destruct (resolved s) eqn:Hres.
    { f_equal. apply resolved_results; assumption. }
    pose proof (progress s Hpos Hinv Hres) as Hsome.
    destruct (enabled s) as [| e es] eqn:Hen; [congruence |].
    set (ev := nth (order s mod length (e :: es)) (e :: es) e).
    assert (Hin : In ev (enabled s)).
    { rewrite Hen. apply nth_In. apply Nat.mod_upper_bound. discriminate. }
    destruct (enabled_steps ev s Hinv Hin) as [s' Hstep].
    rewrite Hstep. apply IH.
    + apply (step_invariant ev s s'); assumption.
    + pose proof (step_weight ev s s' Hinv Hstep). lia.
Qed.

End Scheduler.

Section SchedulerClaims.
Import Queue.

Context {V E : Type}.

(** C1.  For every list of tasks and every limit of 1 or more, whatever
    order the callbacks run in, [queueRun] resolves with an array as long
    as the list of tasks, whose slot [i] holds the value task [i] resolved
    with, or the object [{ error: err }] when task [i] rejected with
    [err]; the other slots are not affected by a rejection.  And a run
    never resolves with anything else. *)
Theorem queueRun_results_by_index
    (tasks : list (settlement V E)) (limit : nat) :
  1 <= limit ->
  (forall order : state V E -> nat,
     exists r,
       queueRun tasks limit order = Some r
       /\ length r = length tasks
       /\ forall i t, tasks !! i = Some t -> r !! i = Some (Some (capture t)))
  /\ (forall es s,
        exec tasks limit es init = Some s ->
        resolved s = true ->
        results s = map (fun t => Some (capture t)) tasks).
Proof.
  intros Hpos. split.
  - intros order. exists (expected tasks). split; [| split].
    + unfold queueRun. apply run_returns; [exact Hpos | | ].
      * apply init_invariant.
      * unfold weight. cbn. lia.
    + unfold expected. apply length_map.
    + intros i t Ht. unfold expected. rewrite list_lookup_fmap, Ht.
      reflexivity.
  - intros es s Hexec Hres.
    apply (resolved_results tasks limit); [| exact Hres].
    apply (exec_invariant tasks limit es init s);
      [apply init_invariant | exact Hexec].
Qed.

(** C8.  In every state of every run, for every list of tasks and every
    limit, the counter [active] is the number of tasks that are started
    and not completed, and that number is at most the limit. *)
Theorem queueRun_bounded_concurrency
    (tasks : list (settlement V E)) (limit : nat)
    (es : list event) (s : state V E) :
  exec tasks limit es init = Some s ->
  active s = length (in_flight s)
  /\ length (in_flight s) <= limit
  /\ length (running s) <= limit.
Proof.
  intros Hexec.
  assert (Hinv : invariant tasks limit s)
    by (apply (exec_invariant tasks limit es init s);
        [apply init_invariant | exact Hexec]).
  pose proof (inv_active _ _ _ Hinv) as Hact.
  pose proof (inv_limit _ _ _ Hinv) as Hlim.
  unfold in_flight. rewrite length_app. lia.
Qed.

End SchedulerClaims.

Section SchedulerExamples.
Import Queue Samples.

Lemma queueRun_results_by_index_witness :
  1 <= 2
  /\ exists r,
       queueRun three_tasks 2 newest_first = Some r
       /\ length r = 3
       /\ r !! 1 = Some (Some (ErrorObject "ECONNRESET"))
       /\ r !! 2 = Some (Some (Value 3%Z)).
Proof.
  split; [lia |].
  destruct (queueRun_results_by_index three_tasks 2) as [Hrun _]; [lia |].
  destruct (Hrun newest_first) as (r & Hr & Hlen & Hslot).
  exists r. split; [exact Hr | split; [exact Hlen | split]].
  - apply (Hslot 1 (Reject "ECONNRESET")). reflexivity.
  - apply (Hslot 2 (Resolve 3%Z)). reflexivity.
Defined.

Lemma queueRun_bounded_concurrency_witness :
  exists s,
    exec three_tasks 2 [Admit; Admit; Leave; Settle 1] init = Some s
    /\ active s = 2
    /\ length (in_flight s) <= 2.
Proof.
  eexists. split; [reflexivity |].
  split; [reflexivity |].
  apply (queueRun_bounded_concurrency
           three_tasks 2 [Admit; Admit; Leave; Settle 1]).
  reflexivity.
Defined.

(** The order of completion does not show in the result. *)
Example queueRun_two_orders :
  queueRun three_tasks 2 oldest_first = queueRun three_tasks 2 newest_first
  /\ queueRun three_tasks 2 oldest_first
     = Some [Some (Value 1%Z); Some (ErrorObject "ECONNRESET");
             Some (Value 3%Z)].
Proof. split; reflexivity. Qed.

(** A third task is not admitted while two are in flight. *)
Example queueRun_limit_reached :
  exec three_tasks 2 [Admit; Admit; Admit] init = None.
Proof. reflexivity. Qed.

(** A later task may settle first: its slot is written past the end of
    the array and the slots before it are holes until their tasks
    settle. *)
Example queueRun_hole :
  option_map results
             (exec three_tasks 2 [Admit; Admit; Leave; Settle 1] init)
  = Some [None; Some (ErrorObject "ECONNRESET")].
Proof. reflexivity. Qed.

(** With a limit of 0 no task is ever started and the promise never
    resolves. *)
Example queueRun_limit_zero :
  queueRun three_tasks 0 oldest_first = None.
Proof. reflexivity. Qed.

(** Without tasks the promise resolves at once with an empty array. *)
Example queueRun_no_tasks :
  queueRun (@nil (settlement Z string)) 2 oldest_first = Some [].
Proof. reflexivity. Qed.

End SchedulerExamples.

(** * Further properties *)

(** ** The counters of the window *)

Section Counters.
Import Aggregate Window Samples Cases.

Lemma entries_newest_first_rev (a : string) (history : list day) :
  entries_newest_first a history = rev (entries_of a history).
Proof.
  unfold entries_newest_first, entries_of.
  induction history as [| d history IH]; [reflexivity |].
  cbn [rev]. rewrite omap_app, IH. cbn [omap list_omap].
  destruct (find_api a (results d)); cbn [rev]; [reflexivity |].
  apply app_nil_r.
Qed.

(** The counting loop from any value of its counters. *)
Lemma count_fold (a : string) (history : list day) :
  forall c,
    fold_left (count_day a) history c
    = mkCounters
        (c_ok c + length (List.filter success (entries_of a history)))
        (c_fail c
         + length (List.filter (fun r => negb (success r))
                               (entries_of a history)))
        (c_latencies c ++ latencies_of a history).
Proof.
  unfold latencies_of, entries_of.
  induction history as [| d history IH]; intros [n_ok n_fail lats].
  - cbn. rewrite !Nat.add_0_r, app_nil_r. reflexivity.
  - cbn [fold_left]. rewrite IH. unfold count_day.
    cbn [omap list_omap].
    destruct (find_api a (results d)) as [r |]; [| reflexivity].
    cbn [omap list_omap List.filter].
    destruct (success r); destruct (latencyMs r) as [l |];
      cbn [c_ok c_fail c_latencies negb length omap list_omap];
      rewrite <- ?app_assoc; f_equal; cbn; lia.
Qed.

(** X1.  The counting loop passes over the records that have no entry for
    the endpoint: [ok] is the number of its successful entries, [fail]
    the number of its failing entries, and the latencies collected are
    the numeric latencies of its entries, oldest first. *)
Theorem count_loop_counts_entries (a : string) (history : list day) :
  let c := count_loop a history in
  c_ok c = length (List.filter success (entries_of a history))
  /\ c_fail c = length (List.filter (fun r => negb (success r))
                                    (entries_of a history))
  /\ c_ok c + c_fail c = length (entries_of a history)
  /\ c_latencies c = latencies_of a history.
Proof.
  cbn zeta. unfold count_loop. rewrite count_fold.
  cbn [c_ok c_fail c_latencies Nat.add app].
  repeat split.
  induction (entries_of a history) as [| r rs IH]; [reflexivity |].
  cbn [List.filter length]. destruct (success r); cbn [negb length]; lia.
Qed.

Lemma leading_failures_le (entries : list result) :
  leading_failures entries
  <= length (List.filter (fun r => negb (success r)) entries).
Proof.
  induction entries as [| r rs IH]; [reflexivity |].
  cbn [leading_failures List.filter].
  destruct (success r); cbn [negb length]; lia.
Qed.

(** X2.  The streak never exceeds the number of failures counted, so an
    endpoint whose status is the alert has failed [WARN_STREAK] times at
    least and is not disabled. *)
Theorem streak_within_failures (history : list day)
    (todayResults : list result) (e : entry) :
  let s := stats_for history todayResults e in
  streak (e_api e) history <= fail s
  /\ (status s = SYM_ALERT -> WARN_STREAK <= fail s /\ s_disabled s = false).
Proof.
  cbn zeta. cbn [stats_for fail status s_disabled].
  assert (Hle : streak (e_api e) history
                <= c_fail (count_loop (e_api e) history)).
  { unfold streak. rewrite streak_loop_leading, firstn_all by lia.
    cbn [Nat.add]. unfold count_loop. rewrite count_fold. cbn [c_fail].
    rewrite entries_newest_first_rev.
    etransitivity; [apply leading_failures_le |].
    rewrite List.filter_rev, length_rev. lia. }
  split; [exact Hle |].
  unfold status_of. destruct (e_disabled e); [discriminate |].
  destruct (Nat.leb_spec WARN_STREAK (streak (e_api e) history))
    as [Hwarn | _].
  - intros _. split; [lia | reflexivity].
  - destruct (find_api (e_api e) todayResults) as [l |];
      [destruct (success l) |]; discriminate.
Qed.

End Counters.

(** ** After a run *)

Section AfterRun.
Import Aggregate Window Samples Cases.

(** Today's record is the newest record of the window. *)
Lemma push_history_keeps_today (history : list day) (r : day) :
  exists older, push_history history r = older ++ [r].
Proof.
  unfold push_history, Js.slice_last.
  destruct (MAX_DAYS <? length (history ++ [r])).
  - exists (skipn (length (history ++ [r]) - MAX_DAYS) history).
    rewrite skipn_app, length_app. cbn [length].
    replace (length history + 1 - MAX_DAYS - length history) with 0
      by (unfold MAX_DAYS; lia).
    reflexivity.
  - exists history. reflexivity.
Qed.

(** The window after the append, without the case on its length. *)
Lemma push_history_form (history : list day) (r : day) :
  push_history history r
  = skipn (length history - (MAX_DAYS - 1)) history ++ [r].
Proof.
  unfold push_history, Js.slice_last. rewrite length_app. cbn [length].
  destruct (Nat.ltb_spec MAX_DAYS (length history + 1)) as [Hlong | Hshort].
  - rewrite skipn_app.
    replace (length history + 1 - MAX_DAYS - length history) with 0
      by (unfold MAX_DAYS in *; lia).
    replace (length history + 1 - MAX_DAYS)
      with (length history - (MAX_DAYS - 1))
      by (unfold MAX_DAYS in *; lia).
    reflexivity.
  - replace (length history - (MAX_DAYS - 1)) with 0
      by (unfold MAX_DAYS in *; lia).
    reflexivity.
Qed.

Lemma push_history_length (history : list day) (r : day) :
  length (push_history history r) = Nat.min (S (length history)) MAX_DAYS.
Proof.
  rewrite push_history_form, length_app, length_skipn. cbn [length].
  unfold MAX_DAYS. lia.
Qed.

(** X3.  Whatever the length of the window, after the append it is made
    of its [MAX_DAYS - 1] newest records followed by today's record: it
    holds [MAX_DAYS] records at most, one at least, and today's record is
    never the one evicted. *)
Theorem push_history_window (history : list day) (r : day) :
  push_history history r
  = skipn (length history - (MAX_DAYS - 1)) history ++ [r]
  /\ length (push_history history r)
     = Nat.min (S (length history)) MAX_DAYS
  /\ List.last (push_history history r) r = r
  /\ push_history history r <> [].
Proof.
  pose proof (push_history_form history r) as Hform.
  split; [exact Hform |]. split; [| split].
  - apply push_history_length.
  - rewrite Hform. apply last_last.
  - rewrite Hform. intros Hnil.
    apply app_eq_nil in Hnil as [_ Hnil]. discriminate.
Qed.

(** The streak of a window whose newest record has an entry. *)
Lemma streak_snoc (a : string) (older : list day) (r : day) (l : result) :
  find_api a (results r) = Some l ->
  streak a (older ++ [r])
  = if success l then 0 else S (streak a older).
Proof.
  intros Hfind. unfold streak.
  rewrite !streak_loop_leading, !firstn_all by lia. cbn [Nat.add].
  unfold entries_newest_first. rewrite rev_app_distr.
  cbn [rev app omap list_omap]. rewrite Hfind.
  cbn [leading_failures]. reflexivity.
Qed.

(** X4.  After a run, the status of an endpoint is the pass symbol
    exactly when the endpoint is enabled and its entry in today's results
    is a success: a success today ends a streak, whatever came before. *)
Theorem status_pass_iff_today (api_site : list (string * site))
    (history : list day) (date kw : string) (todayResults : list result)
    (e : entry) :
  let rp := aggregate api_site history date kw todayResults in
  let s := stats_for (rp_history rp) todayResults e in
  status s = SYM_PASS
  <-> e_disabled e = false
      /\ exists l, find_api (e_api e) todayResults = Some l
                   /\ success l = true.
Proof.
  cbn zeta. cbn [aggregate rp_history stats_for status].
  destruct (push_history_keeps_today history (mkDay date kw todayResults))
    as [older ->].
  unfold status_of. destruct (e_disabled e).
  { split; [discriminate | intros [Habs _]; discriminate]. }
  destruct (find_api (e_api e) todayResults) as [l |] eqn:Hfind.
  - rewrite (streak_snoc (e_api e) older (mkDay date kw todayResults) l)
      by exact Hfind.
    destruct (success l) eqn:Hsucc.
    + cbn. split; [eauto | reflexivity].
    + destruct (WARN_STREAK <=? S (streak (e_api e) older)).
      * split; [discriminate | intros (_ & l' & [= <-] & Habs); congruence].
      * split; [discriminate | intros (_ & l' & [= <-] & Habs); congruence].
  - destruct (WARN_STREAK <=? _);
      (split; [discriminate | intros (_ & l' & Habs & _); discriminate]).
Qed.

(** An entry in today's results is a sample of the window. *)
Lemma samples_with_today (a : string) (history : list day)
    (date kw : string) (todayResults : list result) :
  find_api a todayResults <> None ->
  let window := push_history history (mkDay date kw todayResults) in
  1 <= c_ok (count_loop a window) + c_fail (count_loop a window).
Proof.
  intros Hfind. cbn zeta.
  destruct (push_history_keeps_today history (mkDay date kw todayResults))
    as [older ->].
  unfold count_loop. rewrite count_fold. cbn [c_ok c_fail].
  unfold entries_of. rewrite omap_app. cbn [omap list_omap results].
  destruct (find_api a todayResults) as [l |]; [| congruence].
  rewrite !List.filter_app, !length_app. cbn [List.filter].
  destruct (success l); cbn [negb length]; lia.
Qed.

(** X5.  After a run, an endpoint with an entry in today's results has
    between 1 and [MAX_DAYS] samples, so its rate is a number and its
    tier is one of High, Medium and Low, never the placeholder. *)
Theorem today_entry_gives_tier (api_site : list (string * site))
    (history : list day) (date kw : string) (todayResults : list result)
    (e : entry) :
  find_api (e_api e) todayResults <> None ->
  let rp := aggregate api_site history date kw todayResults in
  let s := stats_for (rp_history rp) todayResults e in
  1 <= ok s + fail s <= MAX_DAYS
  /\ (exists t, successRate s = RatePct t)
  /\ is_tier (reliable s).
Proof.
  intros Hfind. cbn zeta.
  cbn [aggregate rp_history stats_for ok fail successRate reliable].
  set (window := push_history history (mkDay date kw todayResults)).
  assert (Hsamples : 1 <= c_ok (count_loop (e_api e) window)
                          + c_fail (count_loop (e_api e) window)
                     <= MAX_DAYS).
  { split.
    - apply samples_with_today. exact Hfind.
    - etransitivity; [apply count_loop_bound |].
      apply push_history_capped. }
  split; [exact Hsamples |].
  unfold success_rate.
  destruct (Nat.ltb_spec 0 (c_ok (count_loop (e_api e) window)
                            + c_fail (count_loop (e_api e) window)))
    as [_ | Hzero]; [| lia].
  split; [eexists; reflexivity |].
  unfold reliable_of, is_tier. cbn [rateNum].
  destruct (_ && _); [left; reflexivity |].
  destruct (_ && _); [right; left | right; right]; reflexivity.
Qed.

Lemma today_entry_gives_tier_witness :
  find_api api_b today_ab <> None
  /\ reliable (stats_for (rp_history (aggregate config_ab window_ab
                                                "2026-02-04" "kw" today_ab))
                         today_ab entry_b) = TIER_LOW.
Proof.
  split; [discriminate |].
  destruct (today_entry_gives_tier config_ab window_ab "2026-02-04" "kw"
                                   today_ab entry_b) as (_ & _ & Htier);
    [discriminate |].
  destruct Htier as [Hhigh | [Hmedium | Hlow]];
    [vm_compute in Hhigh; discriminate Hhigh
    | vm_compute in Hmedium; discriminate Hmedium
    | exact Hlow].
Defined.

End AfterRun.

(** ** The latency average and the rate *)

Section Averages.
Import Aggregate Window Samples Cases.

Lemma double_of_int_exact (z : Z) :
  (Z.abs z < 2 ^ 53)%Z -> Js.double_of_int z = Js.Finite z.
Proof.
  intros Hz. unfold Js.double_of_int. cbn zeta.
  destruct (Z.ltb_spec (Z.abs z) (2 ^ 53)) as [_ | Hge]; [reflexivity | lia].
Qed.

(** Below [2 ^ 53] the additions of line 246 are exact. *)
Lemma latency_sum_exact (lo hi : Z) (latencies : list Z) :
  (0 <= lo)%Z ->
  (forall l, In l latencies -> (lo <= l <= hi)%Z) ->
  forall acc,
    (0 <= acc)%Z ->
    (acc + Z.of_nat (length latencies) * hi < 2 ^ 53)%Z ->
    exists s,
      fold_left (fun sum l => Js.number_add sum (Js.double_of_int l))
                latencies (Js.Finite acc) = Js.Finite s
      /\ (acc + Z.of_nat (length latencies) * lo <= s
          <= acc + Z.of_nat (length latencies) * hi)%Z.
Proof.
  intros Hlo. induction latencies as [| l ls IH]; intros Hall acc Hacc Hcap.
  - exists acc. split; [reflexivity | cbn [length]; lia].
  - cbn [fold_left].
    pose proof (Hall l (or_introl eq_refl)) as Hl.
    rewrite length_cons, Nat2Z.inj_succ in Hcap |- *.
    assert (Hrest : (0 <= Z.of_nat (length ls) * hi)%Z) by nia.
    rewrite (double_of_int_exact l) by lia.
    cbn [Js.number_add]. rewrite (double_of_int_exact (acc + l)) by lia.
    destruct (IH (fun x Hx => Hall x (or_intror Hx)) (acc + l)%Z)
      as (s & Hs & Hbounds); [lia | lia |].
    exists s. split; [exact Hs | nia].
Qed.

(** Rounding to the nearest integer stays between the integers that
    bound the quotient. *)
Lemma round_even_bounds (A B num den : Z) :
  (0 < den)%Z -> (A * den <= num <= B * den)%Z ->
  (A <= Js.round_even num den <= B)%Z.
Proof.
  intros Hden Hnum. unfold Js.round_even. cbn zeta.
  pose proof (Z.div_mod num den ltac:(lia)) as Hdm.
  pose proof (Z.mod_pos_bound num den Hden) as Hr.
  set (q := (num / den)%Z) in *. set (r := (num mod den)%Z) in *.
  assert (Hq : (A <= q <= B)%Z) by (split; nia).
  destruct (Z.ltb_spec (2 * r) den) as [_ | Hhalf]; [exact Hq |].
  assert (Hup : (A <= q + 1 <= B)%Z) by (split; nia).
  destruct (Z.ltb_spec den (2 * r)); [exact Hup |].
  destruct (Z.even q); [exact Hq | exact Hup].
Qed.

Lemma log2_quotient_le (num den : Z) :
  (0 < den)%Z -> (Js.log2_quotient num den <= Z.log2 num)%Z.
Proof.
  intros Hden. unfold Js.log2_quotient. cbn zeta.
  pose proof (Z.log2_nonneg den) as Hlog.
  destruct (0 <=? Z.log2 num - Z.log2 den)%Z;
    [destruct (_ <=? _)%Z | destruct (_ <=? _)%Z]; lia.
Qed.

(** Below [2 ^ 53] the quotient of line 246, rounded twice, stays between
    the integers that bound the exact quotient. *)
Lemma round_quotient_bounds (lo hi s n : Z) :
  (0 < n)%Z -> (0 <= lo)%Z -> (n * lo <= s <= n * hi)%Z -> (s < 2 ^ 53)%Z ->
  (lo <= Js.round_quotient s n <= hi)%Z.
Proof.
  intros Hn Hlo Hs Hcap. unfold Js.round_quotient.
  destruct (Z.eqb_spec s 0) as [-> | Hne]; [nia |].
  assert (Hpos : (0 < s)%Z) by nia.
  rewrite (Z.abs_eq s), (Z.sgn_pos s) by lia. cbn zeta.
  assert (He : (Z.max (Js.log2_quotient s n - 52) (- 1074) <= 0)%Z).
  { pose proof (log2_quotient_le s n Hn) as Hlog.
    assert (Z.log2 s < 53)%Z by (apply Z.log2_lt_pow2; lia). lia. }
  set (e := Z.max (Js.log2_quotient s n - 52) (- 1074)) in *. clearbody e.
  destruct (Z.leb_spec 0 e) as [Hzero | Hneg].
  - replace e with 0%Z by lia. rewrite Z.pow_0_r, !Z.mul_1_r, Z.mul_1_l.
    apply round_even_bounds; [exact Hn | lia].
  - assert (HP : (0 < 2 ^ (- e))%Z) by (apply Z.pow_pos_nonneg; lia).
    set (P := (2 ^ (- e))%Z) in *. clearbody P. rewrite Z.mul_1_l.
    pose proof (round_even_bounds (lo * P) (hi * P) (s * P) n Hn
                                  ltac:(split; nia)) as Hm.
    set (m := Js.round_even (s * P) n) in *. clearbody m. split.
    + apply Z.div_le_lower_bound; nia.
    + apply Z.lt_succ_r. apply Z.div_lt_upper_bound; nia.
Qed.

(** X6.  When the latencies collected for an endpoint are not negative
    and their number times the largest of them is below [2 ^ 53], the
    average latency is a finite number between the smallest and the
    largest of them: neither the additions in double precision nor the
    two roundings take it out of their range. *)
Theorem latency_average_within_range (history : list day)
    (todayResults : list result) (e : entry) (lo hi : Z) :
  (0 <= lo)%Z ->
  (forall l, In l (latencies_of (e_api e) history) -> (lo <= l <= hi)%Z) ->
  (Z.of_nat (length (latencies_of (e_api e) history)) * hi < 2 ^ 53)%Z ->
  latencies_of (e_api e) history <> [] ->
  exists avg,
    latencyAvgMs (stats_for history todayResults e) = Some (Js.Finite avg)
    /\ (lo <= avg <= hi)%Z.
Proof.
  intros Hlo Hall Hcap Hsome. cbn [stats_for latencyAvgMs].
  unfold count_loop. rewrite count_fold. cbn [c_latencies app].
  destruct (latency_sum_exact lo hi _ Hlo Hall 0%Z ltac:(lia) ltac:(lia))
    as (s & Hsum & Hs).
  unfold latency_avg, latency_sum.
  destruct (latencies_of (e_api e) history) as [| l ls] eqn:Hlat;
    [congruence |].
  rewrite Hsum. eexists. split; [reflexivity |].
  apply round_quotient_bounds; [cbn [length]; lia | exact Hlo | lia | lia].
Qed.

Lemma latency_average_within_range_witness :
  latencyAvgMs (stats_for window_three [] entry_a)
  = Some (Js.Finite 2933)
  /\ exists avg,
       latencyAvgMs (stats_for window_three [] entry_a)
       = Some (Js.Finite avg)
       /\ (300 <= avg <= 8000)%Z.
Proof.
  split; [reflexivity |].
  apply (latency_average_within_range window_three [] entry_a 300 8000).
  - lia.
  - intros l Hl. vm_compute in Hl.
    destruct Hl as [<- | [<- | [<- | []]]]; lia.
  - vm_compute. reflexivity.
  - vm_compute. discriminate.
Defined.

(** Without the bound the average can fall below every latency: the sum
    of three latencies of 6004799503160662 ms is rounded to [2 ^ 54]. *)
Example latency_average_beyond_2_53 :
  latency_avg [6004799503160662; 6004799503160662; 6004799503160662]%Z
  = Some (Js.Finite 6004799503160661).
Proof. vm_compute. reflexivity. Qed.

(** The average in integers and the average on primitive doubles agree
    on the sample latencies, small and large. *)
Lemma latency_avg_is_double_on_samples :
  Forall (fun latencies =>
            exists avg, latency_avg latencies = Some (Js.Finite avg)
                        /\ latency_avg_double latencies = Some avg)
         latency_samples.
Proof.
  unfold latency_samples.
  repeat (constructor; [eexists; split; vm_compute; reflexivity |]).
  constructor.
Qed.

(** X7.  After a run the rate of an endpoint lies between 0.0% and
    100.0%; it is 100.0% exactly when no failure was counted and 0.0%
    exactly when no success was counted: within the window rounding to a
    tenth never hides a failure or a success. *)
Theorem rate_extremes (api_site : list (string * site))
    (history : list day) (date kw : string) (todayResults : list result)
    (e : entry) (t : Z) :
  let rp := aggregate api_site history date kw todayResults in
  let s := stats_for (rp_history rp) todayResults e in
  successRate s = RatePct t ->
  (0 <= t <= 1000)%Z
  /\ (t = 1000%Z <-> fail s = 0)
  /\ (t = 0%Z <-> ok s = 0).
Proof.
  cbn zeta. cbn [aggregate rp_history stats_for ok fail successRate].
  set (window := push_history history (mkDay date kw todayResults)).
  assert (Hcap : c_ok (count_loop (e_api e) window)
                 + c_fail (count_loop (e_api e) window) <= MAX_DAYS).
  { etransitivity; [apply count_loop_bound | apply push_history_capped]. }
  revert Hcap.
  generalize (c_ok (count_loop (e_api e) window)) as n_ok.
  generalize (c_fail (count_loop (e_api e) window)) as n_fail.
  intros n_fail n_ok Hcap. unfold success_rate, MAX_DAYS in *.
  destruct (Nat.ltb_spec 0 (n_ok + n_fail)) as [Hpos | _]; [| discriminate].
  intros [= <-]. unfold Js.round_div.
  set (num := (2 * (1000 * Z.of_nat n_ok) + Z.of_nat (n_ok + n_fail))%Z).
  set (den := (2 * Z.of_nat (n_ok + n_fail))%Z).
  assert (Hden : (0 < den)%Z) by (subst den; lia).
  pose proof (Z.mul_div_le num den Hden) as Hlow.
  pose proof (Z.mul_succ_div_gt num den Hden) as Hhigh.
  subst num den. rewrite Nat2Z.inj_add in *.
  repeat split; intros; nia.
Qed.

Lemma rate_extremes_witness :
  let s := stats_for (rp_history (aggregate config_ab window_ab "2026-02-04"
                                            "kw" today_ab))
                     today_ab entry_b in
  successRate s = RatePct 0 /\ ok s = 0.
Proof.
  cbn zeta. split; [vm_compute; reflexivity |].
  destruct (rate_extremes config_ab window_ab "2026-02-04" "kw" today_ab
                          entry_b 0) as (_ & _ & Hzero);
    [vm_compute; reflexivity |].
  apply Hzero. reflexivity.
Defined.

End Averages.

(** ** Who is in the reliable subset *)

Section SubsetMembership.
Import Aggregate Window Samples Cases.




(** A rate of 100% at the timeout is Low and reliable all the same. *)
Example slow_endpoint_is_reliable :
  let today := [passed api_a 8000] in
  let rp := aggregate [("a", site_a)] [] "2026-02-04" "kw" today in
  reliable (stats_for (rp_history rp) today (entry_of site_a)) = TIER_LOW
  /\ rp_reliable rp = [("a", site_a)].
Proof. split; vm_compute; reflexivity. Qed.

End SubsetMembership.

(** ** The trend *)

Section Trend.
Import Aggregate Window Samples Cases.


Lemma append_assoc (s1 s2 s3 : string) :
  (s1 +:+ s2) +:+ s3 = s1 +:+ s2 +:+ s3.
Proof.
  induction s1 as [| c s1 IH]; [reflexivity |].
  change (String c ((s1 +:+ s2) +:+ s3) = String c (s1 +:+ s2 +:+ s3)).
  f_equal. exact IH.
Qed.



End Trend.

(** ** The order of the rows *)

Section Rows.
Import Aggregate Window Report Samples Cases.

Lemma status_of_is_status (is_disabled : bool) (n : nat)
    (latest : option result) :
  is_status (status_of SYM_FAIL is_disabled n latest).
Proof.
  unfold status_of, is_status.
  destruct is_disabled; [auto |].
  destruct (WARN_STREAK <=? n); [auto |].
  destruct latest as [l |]; [destruct (success l) |]; auto.
Qed.

Lemma is_status_rank (s : stats) :
  is_status (status s) ->
  order (status s) = Some (rank s) /\ (1 <= rank s <= 4)%Z.
Proof.
  unfold rank. intros [-> | [-> | [-> | ->]]]; vm_compute; intuition congruence.
Qed.

(** On rows with a known status the comparator compares the ranks. *)
Lemma compare_status_rank (a b : stats) :
  is_status (status a) -> is_status (status b) ->
  compare_status a b = (rank a - rank b)%Z.
Proof.
  intros Ha Hb. unfold compare_status.
  destruct (is_status_rank a Ha) as [-> _].
  destruct (is_status_rank b Hb) as [-> _]. reflexivity.
Qed.

Lemma insert_before_perm {A} (cmp : A -> A -> Z) (x : A) (l : list A) :
  Permutation (insert_before cmp x l) (x :: l).
Proof.
  induction l as [| y ys IH]; [reflexivity |].
  cbn [insert_before]. destruct (cmp x y <=? 0)%Z; [reflexivity |].
  rewrite IH. apply perm_swap.
Qed.

Lemma sort_perm {A} (cmp : A -> A -> Z) (l : list A) :
  Permutation (sort cmp l) l.
Proof.
  induction l as [| x l IH]; [reflexivity |].
  cbn [sort fold_right]. fold (sort cmp l).
  rewrite insert_before_perm, IH. reflexivity.
Qed.

Lemma insert_before_sorted (x : stats) (l : list stats) :
  is_status (status x) ->
  Forall (fun s => is_status (status s)) l ->
  StronglySorted (fun a b => (rank a <= rank b)%Z) l ->
  StronglySorted (fun a b => (rank a <= rank b)%Z)
                 (insert_before compare_status x l).
Proof.
  intros Hx Hknown Hsorted.
  induction Hsorted as [| y ys Hys IH Hy]; [repeat constructor |].
  apply Forall_cons in Hknown as [Hyk Hknown].
  cbn [insert_before]. rewrite (compare_status_rank x y Hx Hyk).
  destruct (Z.leb_spec (rank x - rank y) 0) as [Hle | Hgt].
  - constructor; [constructor; assumption |].
    constructor; [lia |].
    eapply List.Forall_impl; [| exact Hy]. cbn. intros z Hz. lia.
  - constructor; [apply IH; exact Hknown |].
    eapply Permutation_Forall;
      [symmetry; apply insert_before_perm |].
    constructor; [lia | exact Hy].
Qed.

(** An assignment adds or replaces the value of its key, and leaves the
    other properties as they are. *)
Lemma own_property_set_values {A} (k : string) (v : A)
    (o : list (string * A)) (k' : string) (v' : A) :
  In (k', v') (own_property_set k v o) ->
  (k' = k /\ v' = v) \/ In (k', v') o.
Proof.
  induction o as [| [k0 v0] o IH]; cbn [own_property_set].
  - intros [[= <- <-] | []]. left. split; reflexivity.
  - destruct (String.eqb_spec k0 k) as [-> | Hne].
    + intros [[= <- <-] | Hin]; [left; split; reflexivity |].
      right. right. exact Hin.
    + destruct (listed_before k k0).
      * intros [[= <- <-] | Hin]; [left; split; reflexivity |].
        right. exact Hin.
      * intros [Heq | Hin]; [right; left; exact Heq |].
        destruct (IH Hin) as [Hnew | Hold]; [left; exact Hnew |].
        right. right. exact Hold.
Qed.

Lemma object_set_values {A} (k : string) (v : A) (o : list (string * A))
    (k' : string) (v' : A) :
  In (k', v') (object_set k v o) ->
  (k' = k /\ v' = v) \/ In (k', v') o.
Proof.
  unfold object_set. destruct (String.eqb k PROTO); [right; assumption |].
  apply own_property_set_values.
Qed.

Lemma stats_values_computed (history : list day)
    (todayResults : list result) (apiEntries : list entry) :
  Forall (fun s => exists e, In e apiEntries
                             /\ s = stats_for history todayResults e)
         (stats_values history todayResults apiEntries).
Proof.
  unfold stats_values, stats_object.
  assert (Hgen : forall es o,
    Forall (fun kv => exists e, In e apiEntries
                                /\ snd kv = stats_for history todayResults e) o ->
    (forall e, In e es -> In e apiEntries) ->
    Forall (fun kv => exists e, In e apiEntries
                                /\ snd kv = stats_for history todayResults e)
           (fold_left
              (fun o e => object_set (e_api e)
                            (stats_for history todayResults e) o) es o)).
  { induction es as [| e es IH]; intros o Ho Hsub; [exact Ho |].
    cbn [fold_left]. apply IH.
    - apply Forall_forall. intros [k v] Hkv. apply list_elem_of_In in Hkv.
      rewrite Forall_forall in Ho.
      destruct (object_set_values _ _ _ _ _ Hkv) as [[-> ->] | Hold].
      + exists e. split; [apply Hsub; left |]; reflexivity.
      + apply Ho. apply list_elem_of_In. exact Hold.
    - intros e' He'. apply Hsub. right. exact He'. }
  specialize (Hgen apiEntries [] (List.Forall_nil _) (fun e He => He)).
  apply Forall_forall. intros s Hs. apply list_elem_of_In in Hs.
  apply in_map_iff in Hs as ([k v] & <- & Hkv).
  rewrite Forall_forall in Hgen. apply (Hgen (k, v)).
  apply list_elem_of_In. exact Hkv.
Qed.

Lemma stats_values_known (history : list day) (todayResults : list result)
    (apiEntries : list entry) :
  Forall (fun s => is_status (status s))
         (stats_values history todayResults apiEntries).
Proof.
  eapply List.Forall_impl; [| apply stats_values_computed].
  cbn. intros s (e & _ & ->). cbn [stats_for status].
  apply status_of_is_status.
Qed.

(** X10.  The rows of the report are the statistics of [stats], all of
    them and nothing else, ordered by status: the alerts first, then the
    failures, then the passes, the disabled endpoints last.  Every row has
    one of these four statuses, so the comparator never meets a status
    outside its table. *)
Theorem report_rows_sorted (history : list day) (todayResults : list result)
    (apiEntries : list entry) :
  let rows := sorted history todayResults apiEntries in
  Permutation rows (stats_values history todayResults apiEntries)
  /\ StronglySorted (fun a b => (rank a <= rank b)%Z) rows
  /\ Forall (fun s => is_status (status s) /\ (1 <= rank s <= 4)%Z) rows.
Proof.
  cbn zeta. unfold sorted.
  pose proof (stats_values_known history todayResults apiEntries) as Hknown.
  split; [apply sort_perm | split].
  - induction (stats_values history todayResults apiEntries) as [| x l IH];
      [constructor |].
    apply Forall_cons in Hknown as [Hx Hl].
    cbn [sort fold_right]. fold (sort compare_status l).
    apply insert_before_sorted; [exact Hx | | apply IH; exact Hl].
    eapply Permutation_Forall; [symmetry; apply sort_perm | exact Hl].
  - eapply Permutation_Forall; [symmetry; apply sort_perm |].
    eapply List.Forall_impl; [| exact Hknown].
    cbn. intros s Hs. split; [exact Hs | apply is_status_rank; exact Hs].
Qed.

(** Rows that the comparator separates have different statuses. *)
Lemma compare_status_same (a b : stats) :
  status a = status b -> compare_status a b = 0%Z.
Proof.
  intros Heq. unfold compare_status. rewrite Heq.
  destruct (order (status b)); [lia | reflexivity].
Qed.

Lemma filter_insert_before (st : string) (x : stats) (l : list stats) :
  List.filter (fun s => String.eqb (status s) st)
              (insert_before compare_status x l)
  = List.filter (fun s => String.eqb (status s) st) (x :: l).
Proof.
  induction l as [| y ys IH]; [reflexivity |].
  cbn [insert_before].
  destruct (Z.leb_spec (compare_status x y) 0) as [_ | Hgt]; [reflexivity |].
  cbn [List.filter] in *. rewrite IH.
  destruct (String.eqb_spec (status x) st) as [Hx | _]; [| reflexivity].
  destruct (String.eqb_spec (status y) st) as [Hy | _]; [| reflexivity].
  rewrite compare_status_same in Hgt by congruence. lia.
Qed.

Lemma filter_sort (st : string) (l : list stats) :
  List.filter (fun s => String.eqb (status s) st) (sort compare_status l)
  = List.filter (fun s => String.eqb (status s) st) l.
Proof.
  induction l as [| x l IH]; [reflexivity |].
  cbn [sort fold_right]. fold (sort compare_status l).
  rewrite filter_insert_before. cbn [List.filter]. rewrite IH. reflexivity.
Qed.

Lemma object_set_fresh {A} (k : string) (v : A) (o : list (string * A)) :
  plain_key k = true ->
  ~ In k (map fst o) -> object_set k v o = o ++ [(k, v)].
Proof.
  unfold plain_key, object_set. intros [Hproto Hindex]%andb_prop.
  apply negb_true_iff in Hproto. rewrite Hproto.
  induction o as [| [k0 v0] o IH]; intros Hfresh; [reflexivity |].
  cbn [own_property_set app]. cbn [map fst In] in Hfresh.
  destruct (String.eqb_spec k0 k) as [Heq | _]; [tauto |].
  unfold listed_before. destruct (array_index k); [discriminate |].
  rewrite IH by tauto. reflexivity.
Qed.

(** With pairwise distinct addresses, none of them an array index or
    ["__proto__"], [Object.values(stats)] lists the statistics in the
    order of [apiEntries]. *)
Lemma stats_values_in_order (history : list day)
    (todayResults : list result) (apiEntries : list entry) :
  List.NoDup (map e_api apiEntries) ->
  Forall (fun e => plain_key (e_api e) = true) apiEntries ->
  stats_values history todayResults apiEntries
  = map (stats_for history todayResults) apiEntries.
Proof.
  unfold stats_values, stats_object.
  assert (Hgen : forall es o,
    List.NoDup (map fst o ++ map e_api es) ->
    Forall (fun e => plain_key (e_api e) = true) es ->
    map snd (fold_left
               (fun o e => object_set (e_api e)
                             (stats_for history todayResults e) o) es o)
    = map snd o ++ map (stats_for history todayResults) es).
  { induction es as [| e es IH]; intros o Hnodup Hplain.
    - cbn. rewrite app_nil_r. reflexivity.
    - cbn [fold_left map] in *.
      apply Forall_cons in Hplain as [He Hplain].
      assert (Hfresh : ~ In (e_api e) (map fst o)).
      { intros Hin. apply List.NoDup_remove_2 in Hnodup. apply Hnodup.
        apply in_or_app. left. exact Hin. }
      rewrite object_set_fresh by assumption.
      rewrite IH.
      + rewrite map_app. cbn [map snd]. rewrite <- app_assoc. reflexivity.
      + rewrite map_app. cbn [map fst]. rewrite <- app_assoc. exact Hnodup.
      + exact Hplain. }
  intros Hnodup Hplain. apply (Hgen apiEntries []); assumption.
Qed.

(** X11.  The rows that share a status appear in the report in the order
    in which [Object.values] lists them: the sort moves a row only past
    rows of another status.  With pairwise distinct addresses, none of
    them an array index or ["__proto__"], that is the order of the
    configuration. *)
Theorem report_rows_stable (history : list day) (todayResults : list result)
    (apiEntries : list entry) (st : string) :
  List.NoDup (map e_api apiEntries) ->
  Forall (fun e => plain_key (e_api e) = true) apiEntries ->
  List.filter (fun s => String.eqb (status s) st)
              (sorted history todayResults apiEntries)
  = List.filter (fun s => String.eqb (status s) st)
                (stats_values history todayResults apiEntries)
  /\ stats_values history todayResults apiEntries
     = map (stats_for history todayResults) apiEntries.
Proof.
  intros Hnodup Hplain. unfold sorted. split.
  - apply filter_sort.
  - apply stats_values_in_order; assumption.
Qed.

Lemma report_rows_stable_witness :
  let window := push_history window_ab (day_of "2026-02-04" today_ab) in
  List.NoDup (map e_api (apiEntries_of config_ab))
  /\ map s_name (sorted window today_ab (apiEntries_of config_ab))
     = ["B"; "A"]
  /\ List.filter (fun s => String.eqb (status s) SYM_PASS)
                 (sorted window today_ab (apiEntries_of config_ab))
     = [stats_for window today_ab (entry_of site_a)].
Proof.
  cbn zeta.
  assert (Hnodup : List.NoDup (map e_api (apiEntries_of config_ab))).
  { repeat constructor; cbn; [intros [Habs | []]; discriminate | intros []]. }
  assert (Hplain : Forall (fun e => plain_key (e_api e) = true)
                          (apiEntries_of config_ab)).
  { repeat constructor. }
  split; [exact Hnodup | split; [vm_compute; reflexivity |]].
  destruct (report_rows_stable
              (push_history window_ab (day_of "2026-02-04" today_ab))
              today_ab (apiEntries_of config_ab) SYM_PASS Hnodup Hplain)
    as [-> ->].
  vm_compute. reflexivity.
Defined.

(** The keys that are array indices. *)
Example array_index_keys :
  map array_index ["0"; "7"; "42"; "4294967294"]
  = [Some 0%N; Some 7%N; Some 42%N; Some 4294967294%N]
  /\ map array_index [""; "00"; "07"; "-1"; "1.5"; "1e3"; "4294967295";
                      "https://a.example/api.php/provide/vod"]
     = [None; None; None; None; None; None; None; None].
Proof. split; vm_compute; reflexivity. Qed.

(** An address ["__proto__"] gives no row, and a second entry with a
    known address takes the place of the first. *)
Example stats_values_proto_and_duplicate :
  map s_name
      (stats_values [] []
         [mkEntry "X" "b" "-" false; mkEntry "P" "__proto__" "-" false;
          mkEntry "Y" "c" "-" false; mkEntry "Z" "b" "-" false])
  = ["Z"; "Y"].
Proof. vm_compute. reflexivity. Qed.

(** Addresses that are array indices are listed first, in ascending
    order, wherever the configuration has them. *)
Example stats_values_index_keys :
  map s_name
      (stats_values [] []
         [mkEntry "X" "2" "-" false; mkEntry "Y" "b" "-" false;
          mkEntry "Z" "1" "-" false])
  = ["Z"; "X"; "Y"].
Proof. vm_compute. reflexivity. Qed.

End Rows.

(** ** More on the scheduler *)

Section SchedulerMore.
Import Queue Samples Cases.

Context {V E : Type}.
Variable tasks : list (settlement V E).
Variable limit : nat.

(** Between two callbacks no admission is pending. *)
Lemma exec_saturated (es : list event) :
  forall s s' : state V E,
    (pc s = Idle -> limit <= active s \/ length tasks <= index s) ->
    exec tasks limit es s = Some s' ->
    pc s' = Idle -> limit <= active s' \/ length tasks <= index s'.
Proof.
  induction es as [| e es IH]; intros s s' Hs Hexec.
  - injection Hexec as <-. exact Hs.
  - cbn [exec] in Hexec.
    destruct (step tasks limit e s) as [s1 |] eqn:Hstep; [| discriminate].
    apply (IH s1 s'); [| exact Hexec].
    apply step_cases in Hstep. destruct e as [| | i | i].
    + destruct Hstep as (_ & _ & ->). discriminate.
    + destruct Hstep as (_ & Hcond & ->). intros _.
      apply loop_condition_false in Hcond. exact Hcond.
    + destruct Hstep as (Hpc & _ & t & _ & ->). intros _. exact (Hs Hpc).
    + destruct Hstep as (_ & _ & ->). discriminate.
Qed.

(** The tasks in flight are distinct tasks below the cursor. *)
Lemma in_flight_below_cursor (s : state V E) :
  invariant tasks limit s -> active s <= index s.
Proof.
  intros Hinv. rewrite (inv_active _ _ _ Hinv).
  assert (Hle : length (running s ++ settled s)
                <= length (seq 0 (index s)));
    [| rewrite length_app, List.length_seq in Hle; exact Hle].
  apply List.NoDup_incl_length.
  - apply List.NoDup_app;
      [apply (inv_nodup_running _ _ _ Hinv)
      | apply (inv_nodup_settled _ _ _ Hinv)
      | apply (inv_disjoint _ _ _ Hinv)].
  - intros i Hi. apply in_seq. apply in_app_or in Hi.
    pose proof (inv_started _ _ _ Hinv i Hi). lia.
Qed.

(** X12.  The scheduler keeps its slots busy: whenever it waits for a
    callback, either [limit] tasks are in flight or every task has been
    started.  So by the time the first callback runs, the first
    [min limit n] tasks are started. *)
Theorem queueRun_work_conserving (es : list event) (s : state V E) :
  exec tasks limit es init = Some s ->
  pc s = Idle ->
  (active s = limit \/ index s = length tasks)
  /\ Nat.min limit (length tasks) <= index s.
Proof.
  intros Hexec Hidle.
  assert (Hinv : invariant tasks limit s)
    by (apply (exec_invariant tasks limit es init s);
        [apply init_invariant | exact Hexec]).
  pose proof (inv_limit _ _ _ Hinv) as Hlim.
  pose proof (inv_index _ _ _ Hinv) as Hidx.
  pose proof (in_flight_below_cursor s Hinv) as Hbelow.
  destruct (exec_saturated es init s) as [Hfull | Hall];
    [discriminate | exact Hexec | exact Hidle | |].
  - split; [left; lia | lia].
  - split; [right; lia | lia].
Qed.

(** X13.  Once the promise is resolved nothing is left to run: every task
    has been started and has completed, and no run goes on from there, so
    the array handed to the caller is never written again. *)
Theorem queueRun_resolution_is_final (es es' : list event)
    (s s' : state V E) :
  exec tasks limit es init = Some s ->
  resolved s = true ->
  exec tasks limit es' s = Some s' ->
  es' = [] /\ s' = s
  /\ index s = length tasks /\ in_flight s = [].
Proof.
  intros Hexec Hres Hmore.
  assert (Hinv : invariant tasks limit s)
    by (apply (exec_invariant tasks limit es init s);
        [apply init_invariant | exact Hexec]).
  destruct (inv_resolved _ _ _ Hinv Hres) as (_ & Hidx & Hzero).
  pose proof (inv_active _ _ _ Hinv) as Hact.
  destruct es' as [| e es'].
  - injection Hmore as <-. repeat split; [exact Hidx |].
    unfold in_flight.
    destruct (running s); [| cbn in Hact; lia].
    destruct (settled s); [reflexivity | cbn in Hact; lia].
  - cbn [exec] in Hmore.
    rewrite (resolved_is_final tasks limit s e Hinv Hres) in Hmore.
    discriminate.
Qed.

End SchedulerMore.

Section SchedulerMoreExamples.
Import Queue Samples Cases.

Lemma queueRun_work_conserving_witness :
  exists s,
    exec three_tasks 2 [Admit; Admit; Leave; Settle 1] init = Some s
    /\ pc s = Idle
    /\ Nat.min 2 (length three_tasks) <= index s.
Proof.
  eexists. split; [reflexivity |]. split; [reflexivity |].
  apply (queueRun_work_conserving three_tasks 2
           [Admit; Admit; Leave; Settle 1]); reflexivity.
Defined.

Lemma queueRun_resolution_is_final_witness :
  exists s,
    exec three_tasks 3
         [Admit; Admit; Admit; Leave; Settle 2; Settle 0; Settle 1;
          Finalize 0; Leave; Finalize 1; Leave; Finalize 2; Leave]
         init = Some s
    /\ resolved s = true
    /\ in_flight s = [].
Proof.
  set (es := [Admit; Admit; Admit; Leave; Settle 2; Settle 0; Settle 1;
              Finalize 0; Leave; Finalize 1; Leave; Finalize 2; Leave]).
  destruct (exec three_tasks 3 es init) as [s |] eqn:Hexec;
    [| vm_compute in Hexec; discriminate Hexec].
  assert (Hres : resolved s = true).
  { vm_compute in Hexec. injection Hexec as <-. reflexivity. }
  exists s. split; [reflexivity | split; [exact Hres |]].
  apply (queueRun_resolution_is_final three_tasks 3 es [] s s Hexec Hres
           eq_refl).
Defined.

End SchedulerMoreExamples.

Section SchedulerSlots.
Import Queue Samples Cases.

Context {V E : Type}.
Variable tasks : list (settlement V E).
Variable limit : nat.

(** A write leaves in the other slots the values they had, and makes no
    value appear there. *)
Lemma array_set_lookup_inv {A} (a : list (option A)) (i j : nat) (x v : A) :
  i <> j ->
  Js.array_set a i x !! j = Some (Some v) -> a !! j = Some (Some v).
Proof.
  intros Hne. unfold Js.array_set.
  destruct (Nat.ltb_spec i (length a)) as [Hlt | Hge].
  - rewrite list_lookup_insert_ne by exact Hne. auto.
  - intros Hj. apply lookup_app_Some in Hj as [Hj | [Hlen Hj]]; [exact Hj |].
    apply lookup_app_Some in Hj as [Hj | [Hlen' Hj]].
    + apply list_elem_of_lookup_2, list_elem_of_In, repeat_spec in Hj.
      discriminate.
    + rewrite repeat_length in *.
      destruct (j - length a - (i - length a)) as [| k] eqn:Hk;
        [lia | destruct k; discriminate].
Qed.

Local Abbreviation slots_written_by_owner :=
  (QueueReading.slots_written_by_owner tasks).

Lemma exec_slots (es : list event) :
  forall s s' : state V E,
    invariant tasks limit s -> slots_written_by_owner s ->
    exec tasks limit es s = Some s' -> slots_written_by_owner s'.
Proof.
  induction es as [| e es IH]; intros s s' Hinv Hslots Hexec.
  - injection Hexec as <-. exact Hslots.
  - cbn [exec] in Hexec.
    destruct (step tasks limit e s) as [s1 |] eqn:Hstep; [| discriminate].
    apply (IH s1 s'); [| | exact Hexec].
    { apply (step_invariant tasks limit e s s1); assumption. }
    apply step_cases in Hstep. destruct e as [| | i | i].
    + destruct Hstep as (_ & _ & ->). intros j v Hj.
      cbn [results index running] in *.
      destruct (Hslots j v Hj) as (Hlt & Hnot & Ht).
      split; [lia | split; [| exact Ht]].
      intros Hin. apply in_app_or in Hin as [Hin | [Heq | []]];
        [exact (Hnot Hin) | lia].
    + destruct Hstep as (_ & _ & ->). exact Hslots.
    + destruct Hstep as (_ & Hin & t & Ht & ->). intros j v Hj.
      cbn [results index running] in *.
      destruct (Nat.eq_dec i j) as [<- | Hne].
      * rewrite array_set_lookup_eq in Hj. injection Hj as <-.
        split; [exact (inv_started _ _ _ Hinv i (or_introl Hin)) |].
        split; [| eauto].
        intros Hrem. apply remove_index_In in Hrem as [_ Habs]. congruence.
      * apply (array_set_lookup_inv _ _ _ _ _ Hne) in Hj.
        destruct (Hslots j v Hj) as (Hlt & Hnot & Hown).
        split; [exact Hlt | split; [| exact Hown]].
        intros Hrem. apply remove_index_In in Hrem as [Hrun _].
        exact (Hnot Hrun).
    + destruct Hstep as (_ & _ & ->). exact Hslots.
Qed.

(** X14.  At every moment of every run, slot [i] of the array holds a
    value exactly when task [i] has settled, and the value is the outcome
    of task [i] itself: no task writes the slot of another, and none
    writes before it settles. *)
Theorem queueRun_slot_iff_settled (es : list event) (s : state V E)
    (i : nat) (v : slot V E) :
  exec tasks limit es init = Some s ->
  results s !! i = Some (Some v)
  <-> i < index s /\ ~ In i (running s)
      /\ exists t, tasks !! i = Some t /\ v = capture t.
Proof.
  intros Hexec.
  assert (Hinv : invariant tasks limit s)
    by (apply (exec_invariant tasks limit es init s);
        [apply init_invariant | exact Hexec]).
  split.
  - apply (exec_slots es init s); [apply init_invariant | | exact Hexec].
    intros j w Hj. destruct j; discriminate Hj.
  - intros (Hlt & Hnot & t & Ht & ->).
    apply (inv_written _ _ _ Hinv i t Ht Hlt Hnot).
Qed.

(** X15.  With a limit of 0 and at least one task, no task is ever
    started and the promise is never resolved, whatever the run. *)
Theorem queueRun_limit_zero_never_resolves :
  tasks <> [] ->
  (forall order : state V E -> nat, queueRun tasks 0 order = None)
  /\ (forall es s,
        exec tasks 0 es init = Some s ->
        resolved s = false /\ index s = 0 /\ results s = []).
Proof.
  intros Hsome. destruct tasks as [| t ts] eqn:Htasks; [congruence |].
  set (idle := mkState 0 0 (@nil (option (slot V E))) [] [] Idle false).
  assert (Hleave : step (t :: ts) 0 Leave init = Some idle) by reflexivity.
  assert (Hstuck : forall e, step (t :: ts) 0 e idle = None).
  { intros e. destruct e; reflexivity. }
  split.
  - intros order. unfold queueRun.
    replace (4 * length (t :: ts) + 1) with (S (S (4 * length ts + 3)))
      by (cbn [length]; lia).
    cbn [run resolved init].
    change (enabled (t :: ts) 0 init) with [Leave].
    cbn [length]. rewrite Nat.mod_1_r. cbn [nth]. rewrite Hleave.
    reflexivity.
  - intros es s Hexec. destruct es as [| e es].
    + injection Hexec as <-. repeat split.
    + cbn [exec] in Hexec. destruct e; try discriminate Hexec.
      rewrite Hleave in Hexec. destruct es as [| e2 es].
      * injection Hexec as <-. repeat split.
      * cbn [exec] in Hexec. rewrite Hstuck in Hexec. discriminate.
Qed.

End SchedulerSlots.

Section SchedulerSlotsExamples.
Import Queue Samples Cases.

Lemma queueRun_slot_iff_settled_witness :
  exists s,
    exec three_tasks 2 [Admit; Admit; Leave; Settle 1] init = Some s
    /\ results s !! 1 = Some (Some (ErrorObject "ECONNRESET"))
    /\ ~ In 1 (running s).
Proof.
  eexists. split; [reflexivity |]. split; [reflexivity |].
  apply (queueRun_slot_iff_settled three_tasks 2
           [Admit; Admit; Leave; Settle 1] _ 1
           (ErrorObject "ECONNRESET")); reflexivity.
Defined.

Lemma queueRun_limit_zero_never_resolves_witness :
  three_tasks <> [] /\ queueRun three_tasks 0 newest_first = None.
Proof.
  split; [discriminate |].
  apply (queueRun_limit_zero_never_resolves three_tasks). discriminate.
Defined.

End SchedulerSlotsExamples.

(** ** The paths of a probe *)

(** Compares two runs up to the arithmetic of their clocks. *)
Ltac same_run :=
  rewrite <- ?app_assoc; cbn [app];
  change (Z.of_nat 1) with 1%Z; rewrite ?Z.mul_1_r;
  repeat match goal with
         | |- (_, Retry.mkWorld ?n1 _ _) = (_, Retry.mkWorld ?n2 _ _) =>
             progress (replace n1 with n2 by lia)
         | |- (Retry.Returned (Some (Retry.mkProbe _ ?l1)), _)
              = (Retry.Returned (Some (Retry.mkProbe _ ?l2)), _) =>
             progress (replace l1 with l2 by lia)
         end;
  reflexivity.

Section ProbePaths.
Import Js Retry Main Samples Cases.

(** X16.  A HEAD that is answered ends the probe at once: [safeGet] makes
    this one request, no GET and no second turn, and reports success only
    for the status 200; another status of an answered HEAD is a failure
    that is not retried.  The latency is the time the HEAD took. *)
Theorem safeGet_head_answered (url : string) (w : world) (dt : Z)
    (r : response) (rest : list reply) :
  script w = Resolves dt r :: rest ->
  safeGet url w
  = (Returned (Some (mkProbe (status r =? 200)%Z dt)),
     mkWorld (now w + dt) rest
             (trace w ++ [Attempt 1; Requested HEAD url])).
Proof.
  destruct w as [t sc tr]. cbn [script now trace]. intros ->.
  run_loop. same_run.
Qed.

Lemma safeGet_head_answered_witness :
  safeGet api_a (world_answering 204 Js.JNull)
  = (Returned (Some (mkProbe false 120)),
     mkWorld 120 [] [Attempt 1; Requested HEAD api_a]).
Proof.
  apply (safeGet_head_answered api_a (world_answering 204 Js.JNull) 120
           (mkResponse 204 Js.JNull (EndOrError 0)) []).
  reflexivity.
Defined.

(** X17.  When the HEAD throws and the GET is answered, the latency is
    the time to the first chunk of the GET alone, the time of the failed
    HEAD left out; but when the stream ends or fails before any chunk,
    the latency is the whole time of the turn, the HEAD included.  Either
    way the probe ends there, after two requests and without a sleep. *)
Theorem safeGet_stream_latency (url : string) (w : world) (d1 d2 : Z)
    (r : response) (rest : list reply) :
  script w = Rejects d1 :: Resolves d2 r :: rest ->
  safeGet url w
  = (Returned
       (Some (mkProbe (status r =? 200)%Z
                      match first_event r with
                      | FirstData d3 => (d2 + d3)%Z
                      | EndOrError d3 => (d1 + d2 + d3)%Z
                      end)),
     mkWorld (now w + d1 + d2
              + match first_event r with
                | FirstData d3 => d3
                | EndOrError d3 => d3
                end)
             rest
             (trace w ++ [Attempt 1; Requested HEAD url;
                          Requested STREAM url])).
Proof.
  destruct w as [t sc tr]. cbn [script now trace]. intros ->.
  run_loop; same_run.
Qed.

Lemma safeGet_stream_latency_witness :
  let w := mkWorld 0 [Rejects 4000;
                      Resolves 150 (mkResponse 200 Js.JNull (FirstData 30))]
                   [] in
  fst (safeGet api_a w) = Returned (Some (mkProbe true 180)).
Proof.
  cbn zeta.
  rewrite (safeGet_stream_latency api_a
             (mkWorld 0 [Rejects 4000;
                         Resolves 150 (mkResponse 200 Js.JNull
                                                  (FirstData 30))] [])
             4000 150 (mkResponse 200 Js.JNull (FirstData 30)) [] eq_refl).
  reflexivity.
Defined.

(** X18.  When the first turn fails and the HEAD of the second turn is
    answered, the latency reported is the time of that HEAD alone: the
    first turn and the backoff are left out.  The run has slept once, for
    [RETRY_DELAY_MS], and the clock has moved by the two failed requests,
    the backoff and the HEAD. *)
Theorem safeGet_retry_latency (url : string) (w : world) (d1 d2 d3 : Z)
    (r : response) (rest : list reply) :
  script w = Rejects d1 :: Rejects d2 :: Resolves d3 r :: rest ->
  safeGet url w
  = (Returned (Some (mkProbe (status r =? 200)%Z d3)),
     mkWorld (now w + d1 + d2 + RETRY_DELAY_MS + d3) rest
             (trace w ++ [Attempt 1; Requested HEAD url;
                          Requested STREAM url; Slept RETRY_DELAY_MS;
                          Attempt 2; Requested HEAD url])).
Proof.
  destruct w as [t sc tr]. cbn [script now trace]. intros ->.
  run_loop. same_run.
Qed.

Lemma safeGet_retry_latency_witness :
  let w := mkWorld 0 [Rejects 40; Rejects 8000;
                      Resolves 90 (mkResponse 200 Js.JNull (EndOrError 0))]
                   [] in
  fst (safeGet api_a w) = Returned (Some (mkProbe true 90))
  /\ now (snd (safeGet api_a w)) = 8630%Z.
Proof.
  cbn zeta.
  rewrite (safeGet_retry_latency api_a
             (mkWorld 0 [Rejects 40; Rejects 8000;
                         Resolves 90 (mkResponse 200 Js.JNull
                                                 (EndOrError 0))] [])
             40 8000 90 (mkResponse 200 Js.JNull (EndOrError 0)) [] eq_refl).
  split; reflexivity.
Defined.

End ProbePaths.

(** ** What a run costs and what it can return *)

(** Runs a retry loop and keeps the readers of the trace folded. *)
Ltac run_costs :=
  cbv beta iota zeta delta
      -[Z.add Z.sub Z.mul Z.eqb Z.of_nat Nat.add Nat.mul Nat.sub app
        String.append RETRY_DELAY_MS Retry.classify Retry.status Retry.data
        Retry.first_event Main.requests Main.sleeps length drop take In];
  repeat match goal with
         | |- context [Retry.first_event ?r] =>
             destruct (Retry.first_event r);
             cbv beta iota zeta delta
                 -[Z.add Z.sub Z.mul Z.eqb Z.of_nat Nat.add Nat.mul Nat.sub
                   app String.append RETRY_DELAY_MS Retry.classify
                   Retry.status Retry.data Retry.first_event Main.requests
                   Main.sleeps length drop take In]
         end.

(** Gives the events a run added and checks what is said of them. *)
Ltac count_costs :=
  eexists; split;
  [ rewrite <- ?app_assoc; cbn [app]; reflexivity
  | cbn; repeat split; try lia; reflexivity ].

Section ProbeVerdict.
Import Js Retry Main Samples Cases.

(** X19.  [safeGet] reports a success only when one of the requests it
    made was answered with the status 200. *)
Theorem safeGet_success_means_200 (url : string) (w : world) (p : probe) :
  fst (safeGet url w) = Returned (Some p) ->
  success p = true ->
  exists dt r,
    In (Resolves dt r) (take (2 * MAX_RETRY) (script w))
    /\ status r = 200%Z.
Proof.
  destruct w as [t sc tr]. cbn [script].
  assert (Hok : forall (dt : Z) (r : response) (l : Z) (rs : list reply),
            In (Resolves dt r) rs ->
            Returned (Some (mkProbe (status r =? 200)%Z l))
            = Returned (Some p) ->
            success p = true ->
            exists dt' r', In (Resolves dt' r') rs /\ status r' = 200%Z).
  { intros dt r l rs Hin [= <-] Hs. cbn [success] in Hs.
    apply Z.eqb_eq in Hs. eauto. }
  assert (Hno : forall l : Z,
            Returned (Some (mkProbe false l)) = Returned (Some p) ->
            success p = true -> False).
  { intros l [= <-] Hs. discriminate Hs. }
  destruct sc as [| [d1 | d1 r1] sc].
  - run_costs. intros H1 H2. destruct (Hno _ H1 H2).
  - destruct sc as [| [d2 | d2 r2] sc].
    + run_costs. intros H1 H2. destruct (Hno _ H1 H2).
    + destruct sc as [| [d3 | d3 r3] sc].
      * run_costs. intros H1 H2. destruct (Hno _ H1 H2).
      * destruct sc as [| [d4 | d4 r4] sc].
        -- run_costs. intros H1 H2. destruct (Hno _ H1 H2).
        -- run_costs. intros H1 H2. destruct (Hno _ H1 H2).
        -- run_costs; intros H1 H2;
             (eapply Hok; [| exact H1 | exact H2]; cbn; tauto).
      * run_costs. intros H1 H2.
        (eapply Hok; [| exact H1 | exact H2]; cbn; tauto).
    + run_costs; intros H1 H2;
        (eapply Hok; [| exact H1 | exact H2]; cbn; tauto).
  - run_costs. intros H1 H2.
    (eapply Hok; [| exact H1 | exact H2]; cbn; tauto).
Qed.

End ProbeVerdict.

Section Costs.
Import Js Retry Main Samples Cases.

Variable encodeURIComponent : string -> option string.

(** X20.  A probe costs four requests and one sleep at most, a search
    test two requests and one sleep at most, whatever the network does;
    every request but those made on an exhausted script consumes one
    reply. *)
Theorem retry_costs_bounded (url a keyword : string) (w : world) :
  (exists added,
     trace (snd (safeGet url w)) = trace w ++ added
     /\ length (requests added) <= 2 * MAX_RETRY
     /\ length (sleeps added) <= MAX_RETRY - 1
     /\ script (snd (safeGet url w))
        = drop (length (requests added)) (script w))
  /\ (exists added,
        trace (snd (testSearch encodeURIComponent a keyword w))
        = trace w ++ added
        /\ length (requests added) <= MAX_RETRY
        /\ length (sleeps added) <= MAX_RETRY - 1
        /\ script (snd (testSearch encodeURIComponent a keyword w))
           = drop (length (requests added)) (script w)).
Proof.
  destruct w as [t sc tr]. cbn [script trace]. split.
  - destruct sc as [| [d1 | d1 r1] sc];
      [run_costs; count_costs | | run_costs; count_costs].
    destruct sc as [| [d2 | d2 r2] sc];
      [run_costs; count_costs | | run_costs; count_costs].
    destruct sc as [| [d3 | d3 r3] sc];
      [run_costs; count_costs | | run_costs; count_costs].
    destruct sc as [| [d4 | d4 r4] sc]; run_costs; count_costs.
  - run_costs.
    destruct (encodeURIComponent keyword) as [q |];
      [| run_costs; count_costs].
    destruct sc as [| [d1 | d1 r1] sc]; [run_costs; count_costs | |].
    + destruct sc as [| [d2 | d2 r2] sc]; run_costs;
        try destruct (classify keyword (status r2) (data r2));
        count_costs.
    + run_costs.
      destruct (classify keyword (status r1) (data r1));
        [count_costs |].
      destruct sc as [| [d2 | d2 r2] sc]; run_costs;
        try destruct (classify keyword (status r2) (data r2));
        count_costs.
Qed.

Lemma classify_range (keyword : string) (st : Z) (body : json)
    (s : string) :
  classify keyword st body = Returned s ->
  In s [SEARCH_PASS; SEARCH_FAIL; SEARCH_NO_RESULTS; SEARCH_MISMATCH].
Proof.
  unfold classify.
  destruct (_ || _); [intros [= <-]; cbn; tauto |].
  destruct (match get body "list" with
            | Some v => if truthy v then v else JArr []
            | None => JArr []
            end) as [| b | n | x | [| item items] | fields];
    try (intros [= <-]; cbn; tauto); try discriminate.
  - destruct (existsb _ _); intros [= <-]; cbn; tauto.
  - destruct (get (JObj fields) "length") as [n |];
      [destruct (truthy n) |]; try discriminate;
      intros [= <-]; cbn; tauto.
Qed.

(** X21.  Whatever the network does and whatever the body holds,
    [testSearch] returns one of its four statuses: it never throws and
    never returns [undefined]. *)
Theorem testSearch_returns_a_status (a keyword : string) (w : world) :
  exists s,
    fst (testSearch encodeURIComponent a keyword w) = Returned (Some s)
    /\ In s [SEARCH_PASS; SEARCH_FAIL; SEARCH_NO_RESULTS; SEARCH_MISMATCH].
Proof.
  assert (Hfail : In SEARCH_FAIL [SEARCH_PASS; SEARCH_FAIL;
                                  SEARCH_NO_RESULTS; SEARCH_MISMATCH])
    by (cbn; tauto).
  destruct w as [t sc tr]. run_costs.
  destruct (encodeURIComponent keyword) as [q |]; [| run_costs; eauto].
  destruct sc as [| [d1 | d1 r1] sc]; [run_costs; eauto | |].
  - destruct sc as [| [d2 | d2 r2] sc]; run_costs; eauto.
    destruct (classify keyword (status r2) (data r2)) eqn:Hc2; eauto.
    apply classify_range in Hc2. eauto.
  - run_costs.
    destruct (classify keyword (status r1) (data r1)) eqn:Hc1.
    { apply classify_range in Hc1. eauto. }
    destruct sc as [| [d2 | d2 r2] sc]; run_costs; eauto.
    destruct (classify keyword (status r2) (data r2)) eqn:Hc2; eauto.
    apply classify_range in Hc2. eauto.
Qed.

End Costs.

Section CostsExamples.
Import Js Retry Main Samples Cases.

Lemma safeGet_success_means_200_witness :
  let w := mkWorld 0 [Rejects 40;
                      Resolves 90 (mkResponse 200 JNull (FirstData 10))] [] in
  fst (safeGet api_a w) = Returned (Some (mkProbe true 100))
  /\ exists dt r, In (Resolves dt r) (take (2 * MAX_RETRY) (script w))
                  /\ status r = 200%Z.
Proof.
  cbn zeta. split; [reflexivity |].
  apply (safeGet_success_means_200 api_a
           (mkWorld 0 [Rejects 40;
                       Resolves 90 (mkResponse 200 JNull (FirstData 10))] [])
           (mkProbe true 100)); reflexivity.
Defined.

End CostsExamples.

(** ** What the keyword is matched against *)

Section KeywordMatch.
Import Js Retry Main Samples Cases.

Variable encodeURIComponent : string -> option string.

Lemma substring_of_middle (pre x post : string) :
  substring_of x (pre +:+ x +:+ post).
Proof. exists pre, post. reflexivity. Qed.

Lemma substring_of_trans (x y z : string) :
  substring_of x y -> substring_of y z -> substring_of x z.
Proof.
  intros (p1 & q1 & ->) (p2 & q2 & ->).
  exists (p2 +:+ p1), (q1 +:+ q2).
  rewrite !append_assoc. reflexivity.
Qed.

Lemma append_nothing (s : string) : s +:+ "" = s.
Proof.
  induction s as [| c s IH]; [reflexivity |].
  change (String c (s +:+ "") = String c s). f_equal. exact IH.
Qed.

Lemma substring_of_concat (sep x : string) (pieces : list string) :
  In x pieces -> substring_of x (String.concat sep pieces).
Proof.
  induction pieces as [| y ys IH]; [intros [] |].
  intros [-> | Hin].
  - destruct ys as [| z zs].
    + exists "", "". cbn [String.concat].
      change ("" +:+ x +:+ "") with (x +:+ "").
      symmetry. apply append_nothing.
    + exists "", (sep +:+ String.concat sep (z :: zs)). reflexivity.
  - destruct ys as [| z zs]; [destruct Hin |].
    apply (substring_of_trans _ _ _ (IH Hin)).
    change (String.concat sep (y :: z :: zs))
      with (y +:+ sep +:+ String.concat sep (z :: zs)).
    exists (y +:+ sep), "".
    rewrite append_assoc, append_nothing. reflexivity.
Qed.

(** The text of an object holds the text of each of its keys. *)
Lemma stringify_holds_keys (fields : list (string * json)) (k : string)
    (v : json) :
  In (k, v) fields -> substring_of (escape k) (stringify (JObj fields)).
Proof.
  intros Hin.
  change (stringify (JObj fields))
    with ("{" +:+ String.concat ","
                    (map (fun kv => match kv with
                                    | (k, x) => quote k +:+ ":" +:+ stringify x
                                    end) fields) +:+ "}").
  eapply substring_of_trans; [| apply substring_of_middle].
  eapply substring_of_trans;
    [| apply substring_of_concat;
       apply (in_map (fun kv => match kv with
                                | (k, x) => quote k +:+ ":" +:+ stringify x
                                end) fields (k, v) Hin)].
  exists (String char_dquote ""),
         (String char_dquote "" +:+ ":" +:+ stringify v).
  unfold quote.
  change (String char_dquote (escape k +:+ String char_dquote "")
          +:+ ":" +:+ stringify v)
    with (String char_dquote ((escape k +:+ String char_dquote "")
                              +:+ ":" +:+ stringify v)).
  change (String char_dquote "" +:+ escape k
          +:+ String char_dquote "" +:+ ":" +:+ stringify v)
    with (String char_dquote (escape k +:+ String char_dquote ""
                              +:+ ":" +:+ stringify v)).
  rewrite append_assoc. reflexivity.
Qed.

(** X22.  The keyword is looked for in the whole JSON text of an item,
    the names of its fields included: a response whose list holds an
    object with a field whose name contains the keyword is a pass,
    whatever the values are. *)
Theorem testSearch_matches_field_names (a keyword q : string) (w : world)
    (dts : list Z) (dt : Z) (resp : response) (rest : list reply)
    (items : list json) (fields : list (string * json)) (k : string)
    (v : json) :
  encodeURIComponent keyword = Some q ->
  length dts < MAX_RETRY ->
  script w = map Rejects dts ++ Resolves dt resp :: rest ->
  status resp = 200%Z ->
  structured (data resp) = true ->
  get (data resp) "list" = Some (JArr items) ->
  In (JObj fields) items ->
  In (k, v) fields ->
  substring_of keyword (escape k) ->
  fst (testSearch encodeURIComponent a keyword w)
  = Returned (Some SEARCH_PASS).
Proof.
  intros Henc Hlen Hscript Hst Hbody Hlist Hitem Hfield Hkey.
  apply (testSearch_first_response encodeURIComponent a keyword q w
           dts dt resp rest); try assumption.
  rewrite Hst, (classify_list keyword (data resp) items Hbody Hlist).
  assert (Hex : existsb (fun item => includes (stringify item) keyword)
                        items = true).
  { apply existsb_exists. exists (JObj fields).
    split; [exact Hitem |]. apply includes_spec.
    apply (substring_of_trans _ _ _ Hkey).
    apply (stringify_holds_keys fields k v Hfield). }
  rewrite Hex. destruct items; [destruct Hitem | reflexivity].
Qed.

End KeywordMatch.

Section KeywordMatchExamples.
Import Js Retry Main Samples Cases.

Lemma testSearch_matches_field_names_witness :
  substring_of "title" (escape "title")
  /\ fst (testSearch encode_plain api_a "title"
                     (world_answering 200 body_other))
     = Returned (Some SEARCH_PASS).
Proof.
  assert (Hkey : substring_of "title" (escape "title"))
    by (exists "", ""; reflexivity).
  split; [exact Hkey |].
  apply (testSearch_matches_field_names encode_plain api_a "title" "title"
           (world_answering 200 body_other) [] 120
           (mkResponse 200 body_other (EndOrError 0)) []
           [JObj [("title", JStr "other")]] [("title", JStr "other")]
           "title" (JStr "other"));
    try reflexivity; try exact Hkey;
    try (left; reflexivity).
  unfold MAX_RETRY. cbn. lia.
Defined.

End KeywordMatchExamples.

(** ** The task of an endpoint *)

Section Tasks.
Import Js Retry Main Samples Cases.

Variable encodeURIComponent : string -> option string.

(** A probe returns an object and makes no search request. *)
Lemma safeGet_returns_quietly (url : string) (w : world) :
  match safeGet url w with
  | (Returned (Some p), w') =>
      exists added,
        trace w' = trace w ++ added /\ requests_of GET added = []
  | _ => False
  end.
Proof.
  destruct w as [t sc tr].
  destruct sc as [| [d1 | d1 r1] [| [d2 | d2 r2] [| [d3 | d3 r3]
                    [| [d4 | d4 r4] sc]]]];
    run_costs;
    (eexists; split;
     [rewrite <- ?app_assoc; cbn [app]; reflexivity | reflexivity]).
Qed.

Lemma safeGet_returns (url : string) (w : world) :
  exists p w' added,
    safeGet url w = (Returned (Some p), w')
    /\ trace w' = trace w ++ added
    /\ requests_of GET added = [].
Proof.
  pose proof (safeGet_returns_quietly url w) as H.
  destruct (safeGet url w) as [[[p |] |] w']; try contradiction.
  destruct H as (added & Htrace & Hget).
  exists p, w', added. repeat split; assumption.
Qed.

(** A search test returns a status. *)
Lemma testSearch_returns (a keyword : string) (w : world) :
  exists s w', testSearch encodeURIComponent a keyword w
               = (Returned (Some s), w').
Proof.
  destruct w as [t sc tr]. run_costs.
  destruct (encodeURIComponent keyword) as [q |]; [| run_costs; eauto].
  destruct sc as [| [d1 | d1 r1] sc]; [run_costs; eauto | |].
  - destruct sc as [| [d2 | d2 r2] sc]; run_costs; eauto.
    destruct (classify keyword (status r2) (data r2)); eauto.
  - run_costs.
    destruct (classify keyword (status r1) (data r1)); [eauto |].
    destruct sc as [| [d2 | d2 r2] sc]; run_costs; eauto.
    destruct (classify keyword (status r2) (data r2)); eauto.
Qed.

(** The cases of a task. *)
Lemma task_cases (keyword : string) (e : Aggregate.entry) (w : world) :
  (Aggregate.e_disabled e = true
   /\ task encodeURIComponent keyword e w
      = (Returned (mkOutput (Aggregate.e_name e) (Aggregate.e_api e)
                            true false None (Some STATUS_UNSEARCHABLE)), w))
  \/ (Aggregate.e_disabled e = false
      /\ exists p w1 added st w2,
           safeGet (Aggregate.e_api e) w = (Returned (Some p), w1)
           /\ trace w1 = trace w ++ added
           /\ requests_of GET added = []
           /\ search_status encodeURIComponent (Aggregate.e_api e) keyword p
                            w1 = (Returned (Some st), w2)
           /\ task encodeURIComponent keyword e w
              = (Returned (mkOutput (Aggregate.e_name e) (Aggregate.e_api e)
                                    false (success p) (Some (latencyMs p))
                                    (Some st)), w2)).
Proof.
  unfold task. destruct (Aggregate.e_disabled e); [left; split; reflexivity |].
  right. split; [reflexivity |].
  destruct (safeGet_returns (Aggregate.e_api e) w)
    as (p & w1 & added & Hprobe & Htrace & Hget).
  assert (Hsearch : exists st w2,
            search_status encodeURIComponent (Aggregate.e_api e) keyword p w1
            = (Returned (Some st), w2)).
  { unfold search_status, ENABLE_SEARCH_TEST.
    destruct (success p); [| unfold ret; eauto].
    destruct (latencyMs p <? 2000)%Z; [| unfold ret; eauto].
    apply testSearch_returns. }
  destruct Hsearch as (st & w2 & Hsearch).
  exists p, w1, added, st, w2.
  repeat (split; [assumption |]).
  unfold bind. rewrite Hprobe. unfold bind. rewrite Hsearch. reflexivity.
Qed.

(** X23.  A task never throws.  What it returns carries the name, the
    address and the [disabled] flag of its endpoint and a search status
    that is a text, so it is an element of today's results under the
    address of its endpoint.  For a disabled endpoint it is the fixed
    record of line 186, and the task makes no request and takes no
    time. *)
Theorem task_output (keyword : string) (e : Aggregate.entry) (w : world) :
  exists o r,
    fst (task encodeURIComponent keyword e w) = Returned o
    /\ as_result o = Some r
    /\ Aggregate.api r = Aggregate.e_api e
    /\ Aggregate.name r = Aggregate.e_name e
    /\ Aggregate.disabled r = Aggregate.e_disabled e
    /\ (Aggregate.e_disabled e = true ->
        snd (task encodeURIComponent keyword e w) = w
        /\ Aggregate.success r = false
        /\ Aggregate.latencyMs r = None
        /\ Aggregate.searchStatus r = STATUS_UNSEARCHABLE)
    /\ (Aggregate.e_disabled e = false ->
        exists l, Aggregate.latencyMs r = Some l).
Proof.
  destruct (task_cases keyword e w)
    as [[Hdis Htask]
       | (Hdis & p & w1 & added & st & w2 & _ & _ & _ & _ & Htask)];
    rewrite Htask, Hdis; cbn [fst snd]; eexists; eexists;
    (split; [reflexivity |]); (split; [reflexivity |]);
    cbn [Aggregate.api Aggregate.name Aggregate.disabled Aggregate.success
         Aggregate.latencyMs Aggregate.searchStatus];
    repeat split; try discriminate; eauto.
Qed.

(** X24.  The search test is made only after a successful probe faster
    than 2000 ms: a task that adds a search request to the trace returns
    a success with a latency below 2000.  A failed probe gives the status
    ["-"] and a successful probe of 2000 ms or more the status ["慢速"],
    both without a search request. *)
Theorem task_search_gate (keyword : string) (e : Aggregate.entry)
    (w : world) (o : output) :
  fst (task encodeURIComponent keyword e w) = Returned o ->
  (requests_of GET (trace (snd (task encodeURIComponent keyword e w)))
   <> requests_of GET (trace w) ->
   o_success o = true
   /\ exists l, o_latencyMs o = Some l /\ (l < 2000)%Z)
  /\ (o_disabled o = false -> o_success o = false ->
      o_searchStatus o = Some STATUS_UNTESTED)
  /\ (forall l, o_success o = true -> o_latencyMs o = Some l ->
                (2000 <= l)%Z -> o_searchStatus o = Some STATUS_SLOW).
Proof.
  destruct (task_cases keyword e w)
    as [[Hdis Htask]
       | (Hdis & p & w1 & added & st & w2 & _ & Htrace & Hget & Hsearch
          & Htask)];
    rewrite Htask; cbn [fst snd]; intros [= <-];
    cbn [o_success o_latencyMs o_disabled o_searchStatus].
  - repeat split; try congruence; try discriminate.
  - unfold search_status, ENABLE_SEARCH_TEST in Hsearch.
    assert (Hsame : requests_of GET (trace w1) = requests_of GET (trace w)).
    { rewrite Htrace. unfold requests_of in *. rewrite omap_app, Hget.
      apply app_nil_r. }
    destruct (success p) eqn:Hsucc.
    + destruct (Z.ltb_spec (latencyMs p) 2000) as [Hfast | Hslow].
      * repeat split; try discriminate; eauto.
        intros l _ [= <-] Hl. lia.
      * injection Hsearch as <- <-.
        repeat split; try congruence; try discriminate.
    + injection Hsearch as <- <-.
      repeat split; try congruence; try discriminate.
Qed.

End Tasks.

Section TasksExamples.
Import Js Retry Main Samples Cases.

Lemma task_search_gate_witness :
  let w := mkWorld 0 [Resolves 2500 (mkResponse 200 JNull (EndOrError 0))]
                   [] in
  exists o,
    fst (task encode_plain "kw" entry_a w) = Returned o
    /\ o_success o = true
    /\ o_searchStatus o = Some STATUS_SLOW.
Proof.
  cbn zeta. eexists. split; [reflexivity |]. split; [reflexivity |].
  destruct (task_search_gate encode_plain "kw" entry_a
              (mkWorld 0
                 [Resolves 2500 (mkResponse 200 JNull (EndOrError 0))] [])
              _ eq_refl) as (_ & _ & Hslow).
  apply (Hslow 2500%Z); [reflexivity | reflexivity | lia].
Defined.

End TasksExamples.

(** ** From the tasks to the table *)

Section RunToTable.
Import Js Retry Main Aggregate Window.

Variable encodeURIComponent : string -> option string.

(** What a task returns is filed under the address of its endpoint. *)
Lemma task_result_api (keyword : string) (e : entry) (w : world)
    (o : output) (r : result) :
  fst (task encodeURIComponent keyword e w) = Returned o ->
  as_result o = Some r ->
  api r = e_api e.
Proof.
  destruct (task_cases encodeURIComponent keyword e w)
    as [[_ ->] | (_ & p & w1 & added & st & w2 & _ & _ & _ & _ & ->)];
    cbn [fst]; intros [= <-] [= <-]; reflexivity.
Qed.

Lemma find_api_present (a : string) (xs : list result) (r : result) :
  In r xs -> api r = a -> find_api a xs <> None.
Proof.
  intros Hin Hapi Hnone.
  apply (List.find_none _ _ Hnone) in Hin.
  rewrite Hapi, String.eqb_refl in Hin. discriminate.
Qed.

(** Today's results hold an entry for every endpoint whose task they
    come from. *)
Lemma run_leaves_today_entry (kw : string) (entries : list entry)
    (todayResults : list result) (e : entry) :
  Forall2 (fun e r => exists w o,
             fst (task encodeURIComponent kw e w) = Returned o
             /\ as_result o = Some r)
          entries todayResults ->
  In e entries ->
  find_api (e_api e) todayResults <> None.
Proof.
  intros Hrun Hin.
  induction Hrun as [| e' r es rs (w & o & Ho & Hr) _ IH].
  - destruct Hin.
  - destruct Hin as [-> | Hin].
    + apply (find_api_present _ _ r); [left; reflexivity |].
      exact (task_result_api kw e w o r Ho Hr).
    + specialize (IH Hin). unfold find_api in *. cbn [List.find].
      destruct (String.eqb (api r) (e_api e)); [discriminate | exact IH].
Qed.

(** X25.  When today's results are what the tasks of the configured
    endpoints returned, in the order of the configuration, every
    configured endpoint has an entry today: its row counts at least one
    sample, its rate is a number and its tier is High, Medium or Low. *)
Theorem run_gives_every_endpoint_a_tier (api_site : list (string * site))
    (history : list day) (date kw : string) (todayResults : list result) :
  Forall2 (fun e r => exists w o,
             fst (task encodeURIComponent kw e w) = Returned o
             /\ as_result o = Some r)
          (apiEntries_of api_site) todayResults ->
  let rp := aggregate api_site history date kw todayResults in
  forall e, In e (apiEntries_of api_site) ->
    let s := stats_for (rp_history rp) todayResults e in
    find_api (e_api e) todayResults <> None
    /\ 1 <= ok s + fail s
    /\ (exists t, successRate s = RatePct t)
    /\ is_tier (reliable s).
Proof.
  intros Hrun rp e Hin. cbn zeta.
  pose proof (run_leaves_today_entry kw _ _ e Hrun Hin) as Hfind.
  split; [exact Hfind |].
  subst rp.
  cbn [aggregate rp_history stats_for ok fail successRate reliable].
  pose proof (samples_with_today (e_api e) history date kw todayResults
                                 Hfind) as Hsamples.
  cbn zeta in Hsamples.
  set (window := push_history history (mkDay date kw todayResults)) in *.
  split; [exact Hsamples |].
  unfold success_rate.
  destruct (Nat.ltb_spec 0 (c_ok (count_loop (e_api e) window)
                            + c_fail (count_loop (e_api e) window)))
    as [_ | Hzero]; [| lia].
  split; [eexists; reflexivity |].
  unfold reliable_of, is_tier. cbn [rateNum].
  destruct (_ && _); [left; reflexivity |].
  destruct (_ && _); [right; left | right; right]; reflexivity.
Qed.

End RunToTable.

Section RunToTableExamples.
Import Js Retry Main Aggregate Window Samples Cases.

Lemma run_gives_every_endpoint_a_tier_witness :
  let today :=
    [mkResult "A" api_a false false (Some 0%Z) STATUS_UNTESTED;
     mkResult "B" api_b false false (Some 0%Z) STATUS_UNTESTED] in
  exists t,
    successRate (stats_for (rp_history (aggregate config_ab [] "2026-02-04"
                                                  "kw" today))
                           today entry_b) = RatePct t.
Proof.
  cbn zeta.
  refine (proj1 (proj2 (proj2
    (run_gives_every_endpoint_a_tier encode_plain config_ab []
       "2026-02-04" "kw"
       [mkResult "A" api_a false false (Some 0%Z) STATUS_UNTESTED;
        mkResult "B" api_b false false (Some 0%Z) STATUS_UNTESTED]
       _ entry_b _)))).
  - repeat constructor; exists (mkWorld 0 [] []); eexists;
      (split; [vm_compute; reflexivity | reflexivity]).
  - right. left. reflexivity.
Defined.

End RunToTableExamples.

(** ** The tier of an endpoint after a run *)

Section TierAfterRun.
Import Js Retry Main Aggregate Window.

Variable encodeURIComponent : string -> option string.

(** C3.  When today's results are what the tasks of the configured
    endpoints returned, every configured endpoint has at least one
    sample, so its rate is a number, and its tier is one of three: High
    when the rate is at least 90% and the average latency is below
    2500 ms, otherwise Medium when the rate is at least 70% and the
    average latency is below 5000 ms, and Low in every other case.  The
    case of a rate that is not computable does not arise. *)
Theorem reliability_tier (api_site : list (string * site))
    (history : list day) (date kw : string) (todayResults : list result) :
  Forall2 (fun e r => exists w o,
             fst (task encodeURIComponent kw e w) = Returned o
             /\ as_result o = Some r)
          (apiEntries_of api_site) todayResults ->
  let rp := aggregate api_site history date kw todayResults in
  forall e, In e (apiEntries_of api_site) ->
    let s := stats_for (rp_history rp) todayResults e in
    1 <= ok s + fail s
    /\ exists t,
         successRate s = RatePct t
         /\ let high := (900 <= t)%Z /\ latency_under s 2500 in
            let medium := (700 <= t)%Z /\ latency_under s 5000 in
            (high -> reliable s = TIER_HIGH)
            /\ (~ high -> medium -> reliable s = TIER_MEDIUM)
            /\ (~ high -> ~ medium -> reliable s = TIER_LOW).
Proof.
  intros Hrun rp e Hin. subst rp. cbn zeta. cbn [aggregate rp_history].
  pose proof (run_leaves_today_entry encodeURIComponent kw _ _ e Hrun Hin)
    as Hfind.
  pose proof (samples_with_today (e_api e) history date kw todayResults
                                 Hfind) as Hsamples.
  cbn zeta in Hsamples.
  set (window := push_history history (mkDay date kw todayResults)) in *.
  destruct (tier_by_samples window todayResults e) as [_ Htier].
  cbn zeta in Htier. split; [exact Hsamples |].
  apply Htier. cbn [stats_for ok fail]. lia.
Qed.

End TierAfterRun.

Section TierAfterRunExamples.
Import Js Retry Main Aggregate Window Samples Cases.

Lemma reliability_tier_witness :
  let today :=
    [mkResult "A" api_a false true (Some 120%Z) SEARCH_MISMATCH;
     mkResult "B" api_b false false (Some 0%Z) STATUS_UNTESTED] in
  let rp := aggregate config_ab [] "2026-02-04" "kw" today in
  reliable (stats_for (rp_history rp) today (entry_of site_a)) = TIER_HIGH
  /\ reliable (stats_for (rp_history rp) today entry_b) = TIER_LOW.
Proof.
  cbn zeta.
  pose proof (reliability_tier encode_plain config_ab [] "2026-02-04" "kw"
    [mkResult "A" api_a false true (Some 120%Z) SEARCH_MISMATCH;
     mkResult "B" api_b false false (Some 0%Z) STATUS_UNTESTED]) as Htier.
  cbn zeta in Htier.
  assert (Hrun : Forall2
            (fun e r => exists w o,
               fst (task encode_plain "kw" e w) = Returned o
               /\ as_result o = Some r)
            (apiEntries_of config_ab)
            [mkResult "A" api_a false true (Some 120%Z) SEARCH_MISMATCH;
             mkResult "B" api_b false false (Some 0%Z) STATUS_UNTESTED]).
  { constructor; [| constructor; [| constructor]].
    - exists (mkWorld 0
                [Resolves 120 (mkResponse 200 JNull (EndOrError 0));
                 answer 200 body_match] []).
      eexists. split; [vm_compute; reflexivity | reflexivity].
    - exists (mkWorld 0 [] []).
      eexists. split; [vm_compute; reflexivity | reflexivity]. }
  specialize (Htier Hrun). split.
  - destruct (Htier (entry_of site_a) ltac:(left; reflexivity))
      as (_ & t & Hrate & Hhigh & _).
    vm_compute in Hrate. injection Hrate as <-.
    apply Hhigh. split; [lia |].
    eexists. split; vm_compute; reflexivity.
  - destruct (Htier entry_b ltac:(right; left; reflexivity))
      as (_ & t & Hrate & _ & _ & Hlow).
    vm_compute in Hrate. injection Hrate as <-.
    apply Hlow; intros [Hrate _]; lia.
Defined.

End TierAfterRunExamples.

(** ** The command line *)

Section CommandLine.
Import Cli.

Lemma split_free (c : ascii) (u : string) :
  free_of c u = true -> split c u = [u].
Proof.
  induction u as [| x u IH]; [reflexivity |].
  cbn [free_of split]. intros [Hx Hu]%andb_prop.
  destruct (Ascii.eqb x c); [discriminate |].
  rewrite (IH Hu). reflexivity.
Qed.

Lemma split_cons (c : ascii) (s : string) :
  exists piece pieces, split c s = piece :: pieces.
Proof.
  induction s as [| x s (piece & pieces & IH)]; cbn [split]; [eauto |].
  destruct (Ascii.eqb x c); [eauto |]. rewrite IH. eauto.
Qed.

Lemma split_at (c : ascii) (u rest : string) :
  free_of c u = true ->
  split c (u +:+ String c rest) = u :: split c rest.
Proof.
  induction u as [| x u IH].
  - intros _. change (EmptyString +:+ String c rest) with (String c rest).
    cbn [split]. rewrite Ascii.eqb_refl. reflexivity.
  - cbn [free_of]. intros [Hx Hu]%andb_prop.
    change (String x u +:+ String c rest)
      with (String x (u +:+ String c rest)).
    cbn [split]. destruct (Ascii.eqb x c); [discriminate |].
    rewrite (IH Hu). reflexivity.
Qed.

Lemma find_flag_skips (before after : list string) (a : string) :
  Forall (fun b => String.prefix FLAG b = false) before ->
  String.prefix FLAG a = true ->
  sourceUrlArg (before ++ a :: after) = Some a.
Proof.
  intros Hbefore Ha. unfold sourceUrlArg.
  induction Hbefore as [| b before Hb _ IH]; cbn [app List.find].
  - rewrite Ha. reflexivity.
  - rewrite Hb. exact IH.
Qed.

Lemma flag_prefix (u : string) : String.prefix FLAG (FLAG +:+ u) = true.
Proof. apply prefix_spec. exists u. reflexivity. Qed.

Lemma split_flag (x : string) :
  split "="%char (FLAG +:+ x) = "--source-url"%string :: split "="%char x.
Proof.
  change (FLAG +:+ x) with ("--source-url" +:+ String "="%char x)%string.
  apply split_at. reflexivity.
Qed.

(** X26.  The address of the remote configuration is the text between
    the first and the second ["="] of the first argument that starts with
    [--source-url=]: an address without ["="] is taken whole, and an
    address with one is cut before it. *)
Theorem SOURCE_URL_is_cut_at_equals (before after : list string)
    (u rest : string) :
  Forall (fun b => String.prefix FLAG b = false) before ->
  free_of "="%char u = true ->
  SOURCE_URL (before ++ (FLAG +:+ u) :: after) = Some u
  /\ SOURCE_URL (before ++ (FLAG +:+ (u +:+ String "="%char rest)) :: after)
     = Some u.
Proof.
  intros Hbefore Hu. unfold SOURCE_URL.
  rewrite !(find_flag_skips before after _ Hbefore (flag_prefix _)).
  rewrite !split_flag, (split_free _ _ Hu), (split_at _ _ _ Hu).
  split; reflexivity.
Qed.

(** X27.  The keyword is never the empty text, and it is read from the
    first argument whatever that is: when the first argument is the
    [--source-url=] flag, the flag is both the source of the address and
    the keyword of the search test.  An empty first argument gives the
    default keyword, as no argument does. *)
Theorem SEARCH_KEYWORD_is_first_argument (args : list string) :
  SEARCH_KEYWORD args <> EmptyString
  /\ (args = [] -> SEARCH_KEYWORD args = DEFAULT_KEYWORD)
  /\ (forall a rest, args = a :: rest -> a <> EmptyString ->
                     SEARCH_KEYWORD args = a)
  /\ (forall u rest, args = (FLAG +:+ u) :: rest ->
                     SEARCH_KEYWORD args = FLAG +:+ u
                     /\ sourceUrlArg args = Some (FLAG +:+ u))
  /\ (forall rest, args = EmptyString :: rest ->
                   SEARCH_KEYWORD args = DEFAULT_KEYWORD).
Proof.
  split; [| split; [| split; [| split]]]; [| | | | intros rest ->; reflexivity].
  - destruct args as [| a rest]; [discriminate |].
    cbn [SEARCH_KEYWORD]. destruct (String.eqb_spec a EmptyString).
    + discriminate.
    + assumption.
  - intros ->. reflexivity.
  - intros a rest -> Ha. cbn [SEARCH_KEYWORD].
    destruct (String.eqb_spec a EmptyString); [contradiction | reflexivity].
  - intros u rest ->. split; [reflexivity |].
    apply (find_flag_skips [] rest); [constructor | apply flag_prefix].
Qed.

End CommandLine.

Section CommandLineExamples.
Import Cli.

Lemma SOURCE_URL_is_cut_at_equals_witness :
  SOURCE_URL ["kw"; "--source-url=https://x.example/c.json?raw=1"]%string
  = Some "https://x.example/c.json?raw"%string.
Proof.
  exact (proj2 (SOURCE_URL_is_cut_at_equals
                  ["kw"%string] [] "https://x.example/c.json?raw" "1"
                  ltac:(repeat constructor) eq_refl)).
Defined.

End CommandLineExamples.
